(** * likely: function minimum with packed covariance, and fit parameters

    A shallow embedding of [likely/FunctionMinimum.cc], of the inline
    members of [likely/FitParameter.h] and of the constructor of
    [likely/NonUniformSampling.cc].

    - a C++ [double] is an IEEE 754 binary64 value: [spec_float] with the
      operations of [SpecFloat] at precision 53 and maximal exponent 1024;
    - a C++ [int] is an integer of the 32-bit range; arithmetic that leaves
      the range has no defined result;
    - [std::vector<double>] is a list, read and written by index, with no
      defined result out of range;
    - [boost::shared_ptr<PackedCovariance>] is an option, null being [None];
    - the LAPACK routine [dpptrf_], the generator behind
      [Random::getNormal] and [boost::format] are external to the library:
      the model takes them as parameters;
    - where it matters what a call leaves of a vector passed by reference,
      the vectors are in a store and a reference is a position in it. *)

From Stdlib Require Import ZArith Lia String Ascii SpecFloat.
From stdpp Require Import base list.

Local Open Scope Z_scope.

(** ** Outcomes of a C++ computation *)

Inductive result (A : Type) : Type :=
| Normal (a : A)            (* normal completion *)
| Throw (what : string)     (* a RuntimeError was thrown *)
| Undefined.                (* the behaviour is undefined *)

Arguments Normal {A} a.
Arguments Throw {A} what.
Arguments Undefined {A}.

Definition bind {A B : Type} (r : result A) (k : A -> result B) : result B :=
  match r with
  | Normal a => k a
  | Throw what => Throw what
  | Undefined => Undefined
  end.

Notation "'do' x <- e ; k" := (bind e (fun x => k))
  (at level 10, x name, e at level 100, k at level 200,
   format "'[v' 'do'  x  <-  e ; '/' k ']'").

(** ** [int] *)

Module Int.
Definition min : Z := - 2 ^ 31.
Definition max : Z := 2 ^ 31 - 1.

Definition in_range (z : Z) : bool := (min <=? z) && (z <=? max).

(** The value of an [int] expression whose mathematical value is [z]. *)
Definition check (z : Z) : result Z :=
  if in_range z then Normal z else Undefined.

Definition add (a b : Z) : result Z := check (a + b).
Definition mul (a b : Z) : result Z := check (a * b).
(** [a / 2] on [int]: truncating division. *)
Definition half (a : Z) : Z := Z.quot a 2.

(** [int n(v.size())]: defined here only when the size fits an [int]. *)
Definition of_size (n : nat) : result Z := check (Z.of_nat n).
End Int.

(** ** [double] *)

Abbreviation double := spec_float.

Module Double.
Definition prec : Z := 53.
Definition emax : Z := 1024.

Definition add : double -> double -> double := SFadd prec emax.
Definition mul : double -> double -> double := SFmul prec emax.
Definition div : double -> double -> double := SFdiv prec emax.
Definition sqrt : double -> double := SFsqrt prec emax.
Definition sub : double -> double -> double := SFsub prec emax.
Definition opp : double -> double := SFopp.
Definition ltb : double -> double -> bool := SFltb.
Definition leb : double -> double -> bool := SFleb.

(** Conversion of an [int] to [double]. *)
Definition of_int (z : Z) : double := binary_normalize prec emax z 0 false.

Definition zero : double := S754_zero false.
(** The literal [0.5]. *)
Definition half : double := S754_finite false 4503599627370496 (-53).

(** [std::floor], as the integer it denotes; none for NaN and infinities. *)
Definition floor (x : double) : option Z :=
  match x with
  | S754_zero _ => Some 0
  | S754_finite s m e =>
      let v := if s then Zneg m else Zpos m in
      Some (if 0 <=? e then v * 2 ^ e else v / 2 ^ (- e))
  | S754_infinity _ | S754_nan => None
  end.

(** [int n(std::floor(x))]: the conversion is defined when the floor fits. *)
Definition floor_to_int (x : double) : result Z :=
  match floor x with
  | Some z => Int.check z
  | None => Undefined
  end.
End Double.

(** ** Vectors *)

Abbreviation Parameters := (list double).
Abbreviation PackedCovariance := (list double).
Abbreviation PackedCovariancePtr := (option (list double)).

(** [v[k]] as an rvalue. *)
Definition vec_get (v : list double) (k : nat) : result double :=
  match v !! k with
  | Some x => Normal x
  | None => Undefined
  end.

(** [v[k] = x]. *)
Definition vec_set (v : list double) (k : nat) (x : double) : result (list double) :=
  if decide (k < length v)%nat then Normal (<[k := x]> v) else Undefined.

(** [for(int i = i0; i < i0 + n; ++i) body], on a loop state of type [S]. *)
Fixpoint for_loop {S : Type} (n i0 : nat) (body : nat -> S -> result S) (s : S)
  : result S :=
  match n with
  | O => Normal s
  | Datatypes.S n' => do s' <- body i0 s; for_loop n' (Datatypes.S i0) body s'
  end.

(** The packed index [i*(i+3)/2] of the diagonal element [(i,i)], in [int]
    arithmetic. *)
Definition diag_index (i : nat) : result nat :=
  do i3 <- Int.add (Z.of_nat i) 3;
  do p <- Int.mul (Z.of_nat i) i3;
  Normal (Z.to_nat (Int.half p)).

(** ** Packed upper-triangular storage

    Element [(i,j)], [i <= j], of an [n] by [n] symmetric matrix is at
    position [i + j*(j+1)/2] of a vector of length [n*(n+1)/2]. *)

Definition tri (n : nat) : nat := (n * (n + 1) / 2)%nat.
Definition packed_index (i j : nat) : nat := (i + tri j)%nat.
Definition diag (i : nat) : nat := (i * (i + 3) / 2)%nat.

(** The element at position [k], for positions known to be in range. *)
Definition vec_at (v : list double) (k : nat) : double :=
  default Double.zero (v !! k).

(** ** FitParameter (FitParameter.h) *)

Record FitParameter : Type := mkFitParameter {
  _name : string;
  _value : double;
  _error : double
}.

Module FitParameter.
Definition getName (p : FitParameter) : string := _name p.
Definition getValue (p : FitParameter) : double := _value p.
Definition setValue (value : double) (p : FitParameter) : FitParameter :=
  mkFitParameter (_name p) value (_error p).
Definition getError (p : FitParameter) : double := _error p.
Definition fix_ (p : FitParameter) : FitParameter :=
  if Double.ltb Double.zero (_error p)
  then mkFitParameter (_name p) (_value p) (Double.opp (_error p))
  else p.
Definition release (p : FitParameter) : FitParameter :=
  if Double.ltb (_error p) Double.zero
  then mkFitParameter (_name p) (_value p) (Double.opp (_error p))
  else p.
Definition isFloating (p : FitParameter) : bool :=
  Double.ltb Double.zero (_error p).
End FitParameter.

(** ** FunctionMinimum (FunctionMinimum.cc) *)

Record FunctionMinimum : Type := mkFunctionMinimum {
  _minValue : double;
  _where : Parameters;
  _covar : PackedCovariancePtr;
  _cholesky : PackedCovariancePtr
}.

(** How a call of a non-const member function ends, with the object as it
    is at that point. *)
Inductive outcome (A : Type) : Type :=
| Returns (a : A) (this : FunctionMinimum)
| Throws (what : string) (this : FunctionMinimum)
| FallsOffEnd (this : FunctionMinimum)
    (* control reaches the closing brace of a value-returning function
       without a return statement: no value is returned *)
| UndefinedBehaviour.

Arguments Returns {A} a this.
Arguments Throws {A} what this.
Arguments FallsOffEnd {A} this.
Arguments UndefinedBehaviour {A}.

Definition lift {A B : Type} (r : result A) (this : FunctionMinimum)
    (k : A -> outcome B) : outcome B :=
  match r with
  | Normal a => k a
  | Throw what => Throws what this
  | Undefined => UndefinedBehaviour
  end.

Notation "'run' x <- e 'in' this ; k" := (lift e this (fun x => k))
  (at level 10, x name, e at level 100, this at level 9, k at level 200,
   format "'[v' 'run'  x  <-  e  'in'  this ; '/' k ']'").

(** [*p] on a shared pointer. *)
Definition deref {A : Type} (p : option A) : result A :=
  match p with
  | Some a => Normal a
  | None => Undefined
  end.

Section FunctionMinimum.

(** [dpptrf_(&uplo, &n, ap, &info)] with [uplo = 'U']: from the order and
    the packed array to the array as the routine leaves it and [info]. *)
Variable dpptrf : Z -> list double -> list double * Z.

(** The shared [Random] instance and its [getNormal()]. *)
Variable Random : Type.
Variable getNormal : Random -> double * Random.

Definition FunctionMinimum_ (minValue : double) (where_ : Parameters)
  : FunctionMinimum :=
  mkFunctionMinimum minValue where_ None None.

(** Modelled from the spec: [haveCovariance()] is declared in
    FunctionMinimum.h, which is not part of the sources; it tells whether
    the optional covariance is present. *)
Definition haveCovariance (this : FunctionMinimum) : bool :=
  match _covar this with Some _ => true | None => false end.

Definition updateParameters (params : Parameters) (fval : double)
    (this : FunctionMinimum) : FunctionMinimum :=
  mkFunctionMinimum fval params (_covar this) (_cholesky this).

(** The free function, on values: [cholesky] is the copy of the argument.
    [dpptrf_] is handed the address of the element [0] of the copy, an
    element that is asked for whatever the length of the copy is. *)
Definition choleskyDecomposition (covar : PackedCovariance)
  : result PackedCovariancePtr :=
  let cholesky := covar in
  do nCov <- Int.of_size (length covar);
  do nCov8 <- Int.mul 8 nCov;
  do arg <- Int.add 1 nCov8;
  do nPar <- Double.floor_to_int
               (Double.mul Double.half (Double.sqrt (Double.of_int arg)));
  do nPar1 <- Int.add nPar 1;
  do prod <- Int.mul nPar nPar1;
  if negb (nCov =? Int.half prod) then
    Throw "choleskyDecomposition: internal error nCov ~ nPar"
  else
    do _ <- vec_get cholesky 0;
    let '(ap, info) := dpptrf nPar cholesky in
    if negb (0 =? info) then Normal None else Normal (Some ap).

(** The loop of the error-only shape, on the new [*_covar]. *)
Definition fill_diagonal (nPar : nat) (covar c : list double)
  : result (list double) :=
  for_loop nPar 0 (fun i c =>
    do error <- vec_get covar i;
    do k <- diag_index i;
    vec_set c k (Double.mul error error)) c.

Definition updateCovariance (covar : PackedCovariance) (errorsOnly : bool)
    (this : FunctionMinimum) : outcome bool :=
  run nPar <- Int.of_size (length (_where this)) in this;
  run nPar1 <- Int.add nPar 1 in this;
  run prod <- Int.mul nPar nPar1 in this;
  let nCovar := Int.half prod in
  if errorsOnly then
    if negb (Z.of_nat (length covar) =? nPar) then
      Throws "FunctionMinimum: parameter and error vectors have incompatible sizes." this
    else if existsb (fun x => Double.leb x Double.zero) covar then
      Returns false this
    else
      let this1 :=
        mkFunctionMinimum (_minValue this) (_where this)
          (Some (replicate (Z.to_nat nCovar) Double.zero)) (_cholesky this) in
      run c <- fill_diagonal (Z.to_nat nPar) covar
                 (replicate (Z.to_nat nCovar) Double.zero) in this1;
      let this2 :=
        mkFunctionMinimum (_minValue this) (_where this) (Some c)
          (_cholesky this) in
      run cholesky <- choleskyDecomposition c in this2;
      FallsOffEnd
        (mkFunctionMinimum (_minValue this) (_where this) (Some c) cholesky)
  else
    if negb (Z.of_nat (length covar) =? nCovar) then
      Throws "FunctionMinimum: parameter and covariance vectors have incompatible sizes." this
    else
      run cholesky <- choleskyDecomposition covar in this;
      match cholesky with
      | None => Returns false this
      | Some _ =>
          FallsOffEnd
            (mkFunctionMinimum (_minValue this) (_where this) (Some covar)
               cholesky)
      end.

(** The constructor taking a covariance: a [bool] is needed from
    [updateCovariance]. *)
Definition FunctionMinimum_covar (minValue : double) (where_ : Parameters)
    (covar : PackedCovariance) (errorsOnly : bool) : result FunctionMinimum :=
  match updateCovariance covar errorsOnly (FunctionMinimum_ minValue where_) with
  | Returns true this => Normal this
  | Returns false _ =>
      Throw "FunctionMinimum: covariance is not positive definite."
  | Throws what _ => Throw what
  | FallsOffEnd _ | UndefinedBehaviour => Undefined
  end.

Definition getErrors (this : FunctionMinimum) : result Parameters :=
  if negb (haveCovariance this) then
    Throw "FunctionMinimum::getErrors: no covariance matrix available."
  else
    do nPar <- Int.of_size (length (_where this));
    for_loop (Z.to_nat nPar) 0 (fun i errors =>
      do k <- diag_index i;
      do c <- deref (_covar this);
      do sigsq <- vec_get c k;
      vec_set errors i
        (if Double.ltb Double.zero sigsq then Double.sqrt sigsq
         else Double.zero))
      (replicate (Z.to_nat nPar) Double.zero).

(** State of the first loop of [setRandomParameters]. *)
Record draw_state : Type := mkDraw {
  d_params : Parameters;
  d_gauss : Parameters;
  d_nlWeight : double;
  d_random : Random
}.

Definition draw_step (this : FunctionMinimum) (i : nat) (s : draw_state)
  : result draw_state :=
  do w <- vec_get (_where this) i;
  do params <- vec_set (d_params s) i w;
  let '(r, rng) := getNormal (d_random s) in
  do gauss <- vec_set (d_gauss s) i r;
  Normal (mkDraw params gauss (Double.add (d_nlWeight s) (Double.mul r r)) rng).

(** The body of the inner loop of the multiplication: the element under
    the iterator [next] times [gauss[i]] is added to [params[j]] and the
    iterator, a position in the factor, advances. *)
Definition mult_step (cholesky gauss : list double) (j i : nat)
    (s : Parameters * nat) : result (Parameters * nat) :=
  let '(params, next) := s in
  do u <- vec_get cholesky next;
  do g <- vec_get gauss i;
  do p <- vec_get params j;
  do params' <- vec_set params j (Double.add p (Double.mul u g));
  Normal (params', Datatypes.S next).

Definition setRandomParameters (params : Parameters) (this : FunctionMinimum)
    (rng : Random) : result (double * Parameters * Random) :=
  if negb (haveCovariance this) then
    Throw "FunctionMinimum::getRandomParameters: no covariance matrix available."
  else
    do nPar <- Int.of_size (length (_where this));
    let n := Z.to_nat nPar in
    do s <- for_loop n 0 (draw_step this)
              (mkDraw params (replicate n Double.zero) Double.zero rng);
    do cholesky <- deref (_cholesky this);
    do pn <- for_loop n 0 (fun j =>
               for_loop (Datatypes.S j) 0 (mult_step cholesky (d_gauss s) j))
               (d_params s, 0%nat);
    Normal (Double.div (d_nlWeight s) (Double.of_int 2), fst pn, d_random s).

End FunctionMinimum.

(** ** choleskyDecomposition and the vectors of its caller

    [choleskyDecomposition] takes its argument by reference, copies it and
    hands the copy to [dpptrf_], which writes into it.  To tell what the
    call leaves of the vectors that exist when it is made, the same
    function is given here with the vectors in a store: a reference or a
    pointer is a position in the store, [new] adds a vector at its end,
    and the store is threaded through the call, however it ends.  A
    vector that is no longer pointed to stays in the store. *)

Module Store.

Abbreviation store := (list (list double)).

(** How a call ends, and the store as it is at that point. *)
Definition ending (A : Type) : Type := result A * store.

Definition step {A B : Type} (r : result A) (h : store) (k : A -> ending B)
  : ending B :=
  match r with
  | Normal a => k a
  | Throw what => (Throw what, h)
  | Undefined => (Undefined, h)
  end.

(** [*p], for a reference or a pointer [p]. *)
Definition read (p : nat) (h : store) : result (list double) :=
  match h !! p with
  | Some v => Normal v
  | None => Undefined
  end.

Section WithDpptrf.
Variable dpptrf : Z -> list double -> list double * Z.

Definition choleskyDecomposition (covar : nat) (h : store)
  : ending (option nat) :=
  step (read covar h) h (fun v =>
  let cholesky := length h in
  let h := h ++ [v] in
  step (read covar h) h (fun v =>
  step (Int.of_size (length v)) h (fun nCov =>
  step (Int.mul 8 nCov) h (fun nCov8 =>
  step (Int.add 1 nCov8) h (fun arg =>
  step (Double.floor_to_int
          (Double.mul Double.half (Double.sqrt (Double.of_int arg)))) h
    (fun nPar =>
  step (Int.add nPar 1) h (fun nPar1 =>
  step (Int.mul nPar nPar1) h (fun prod =>
  if negb (nCov =? Int.half prod) then
    (Throw "choleskyDecomposition: internal error nCov ~ nPar", h)
  else
    step (read cholesky h) h (fun ap0 =>
    step (vec_get ap0 0) h (fun _ =>
    let '(ap, info) := dpptrf nPar ap0 in
    let h := <[cholesky := ap]> h in
    if negb (0 =? info) then (Normal None, h)
    else (Normal (Some cholesky), h))))))))))).

End WithDpptrf.

End Store.

(** ** Printing (FunctionMinimum.cc, printToStream)

    The output stream is the text written to it.  [boost::format] is
    external to the library: the model takes the construction of a
    formatter from a format string, and [os << formatter % x], which gives
    the text written for [x] and the formatter as it is afterwards.  Each
    of the two can throw. *)

Section Printing.

Variable Format : Type.
Variable format_of : string -> result Format.
Variable feed : Format -> double -> result (string * Format).

(** [std::endl], as the character written. *)
Definition endl : string := String "010"%char EmptyString.

(** [os << text]. *)
Definition put (text : string) (s : string * Format) : string * Format :=
  ((fst s ++ text)%string, snd s).

(** [os << formatter % x]. *)
Definition put_number (x : double) (s : string * Format)
  : result (string * Format) :=
  do r <- feed (snd s) x;
  Normal ((fst s ++ fst r)%string, snd r).

(** [i + j*(j+1)/2] in [int] arithmetic. *)
Definition packed_int (i j : nat) : result nat :=
  do j1 <- Int.add (Z.of_nat j) 1;
  do p <- Int.mul (Z.of_nat j) j1;
  do k <- Int.add (Z.of_nat i) (Int.half p);
  Normal (Z.to_nat k).

(** [(i <= j) ? i + j*(j+1)/2 : j + i*(i+1)/2]. *)
Definition print_index (i j : nat) : result nat :=
  if (i <=? j)%nat then packed_int i j else packed_int j i.

Definition printToStream (os : string) (formatSpec : string)
    (this : FunctionMinimum) : result string :=
  do formatter <- format_of formatSpec;
  do w0 <- vec_get (_where this) 0;
  do s <- put_number w0 (put "F(" (os, formatter));
  do nPar <- Int.of_size (length (_where this));
  let n := Z.to_nat nPar in
  do s <- for_loop (n - 1) 1 (fun i s =>
            do w <- vec_get (_where this) i;
            put_number w (put "," s)) s;
  do s <- put_number (_minValue this) (put ") = " s);
  let s := put endl s in
  if haveCovariance this then
    do errors <- getErrors this;
    let s := put "ERRORS:" s in
    do s <- for_loop n 0 (fun i s =>
              do e <- vec_get errors i;
              put_number e (put " " s)) s;
    let s := put endl (put "COVARIANCE:" (put endl s)) in
    do s <- for_loop n 0 (fun i s =>
              do s <- for_loop n 0 (fun j s =>
                        do index <- print_index i j;
                        do c <- deref (_covar this);
                        do x <- vec_get c index;
                        put_number x (put " " s)) s;
              Normal (put endl s)) s;
    Normal (fst s)
  else Normal (fst s).

End Printing.

(** ** Reference instances of the external parts *)

(** A model of the reference implementation of [dpptrf] (LAPACK, netlib)
    for [uplo = 'U']: column by column, the elements above the diagonal by
    forward substitution with the columns already factored, then the
    pivot; [info] is the one-based index of the first pivot that is not
    positive, or zero. *)
Module Lapack.

Definition get : list double -> nat -> double := vec_at.

Fixpoint sub_dot (ap : list double) (a b len : nat) (temp : double) : double :=
  match len with
  | O => temp
  | S len' =>
      sub_dot ap (S a) (S b) len'
        (Double.sub temp (Double.mul (get ap a) (get ap b)))
  end.

Fixpoint dot (ap : list double) (a b len : nat) (acc : double) : double :=
  match len with
  | O => acc
  | S len' =>
      dot ap (S a) (S b) len'
        (Double.add acc (Double.mul (get ap a) (get ap b)))
  end.

Definition column_start : nat -> nat := tri.

Definition solve_column (j : nat) (ap : list double) : list double :=
  let jc := column_start j in
  fold_left (fun ap i =>
      let ic := column_start i in
      <[(jc + i)%nat :=
          Double.div (sub_dot ap ic jc i (get ap (jc + i)%nat))
            (get ap (ic + i)%nat)]> ap)
    (seq 0 j) ap.

Fixpoint columns (n j : nat) (ap : list double) : list double * Z :=
  match n with
  | O => (ap, 0)
  | S n' =>
      let jj := (column_start j + j)%nat in
      let ap := solve_column j ap in
      let ajj := Double.sub (get ap jj) (dot ap (column_start j) (column_start j) j Double.zero) in
      if Double.leb ajj Double.zero then (<[jj := ajj]> ap, Z.of_nat (S j))
      else columns n' (S j) (<[jj := Double.sqrt ajj]> ap)
  end.

Definition dpptrf (n : Z) (ap : list double) : list double * Z :=
  if n <? 0 then (ap, -2) else columns (Z.to_nat n) 0 ap.
End Lapack.

(** A [Random] that hands out a given sequence of normals, then zeros. *)
Module Replay.

Definition getNormal (s : list double) : double * list double :=
  match s with
  | [] => (Double.zero, [])
  | r :: s' => (r, s')
  end.
End Replay.

(** A formatter that writes a mark for the kind of number it is given. *)
Module Marks.

Definition show (x : double) : string :=
  match x with
  | S754_zero _ => "0"
  | S754_infinity s => if s then "-inf" else "inf"
  | S754_nan => "nan"
  | S754_finite s _ _ => if s then "-x" else "x"
  end.

Definition format_of (_ : string) : result unit := Normal tt.

Definition feed (_ : unit) (x : double) : result (string * unit) :=
  Normal (show x, tt).
End Marks.

(** ** Sample points (NonUniformSampling.cc)

    The constructor throws a [BinningError], which [Throw] carries with
    its message.  The four bin accessors go through [isValidBinIndex] of
    the base class, which is not part of the sources, and are left out. *)

Record NonUniformSampling : Type := mkNonUniformSampling {
  _samplePoints : list double
}.

Module NonUniformSampling.

(** The body of the loop that checks the order, at [index]. *)
Definition order_check (samplePoints : list double) (index : nat) (_ : unit)
  : result unit :=
  do a <- vec_get samplePoints (index - 1);
  do b <- vec_get samplePoints index;
  if Double.ltb b a then
    Throw "NonUniformSampling: sample points are not in increasing order."
  else Normal tt.

Definition NonUniformSampling_ (samplePoints : list double)
  : result NonUniformSampling :=
  let this := mkNonUniformSampling samplePoints in
  do nSamples <- Int.of_size (length (_samplePoints this));
  if nSamples <? 1 then
    Throw "NonUniformSampling: need at least 1 sample point."
  else
    do _ <- for_loop (Z.to_nat nSamples - 1) 1
              (order_check (_samplePoints this)) tt;
    Normal this.

Definition getNBins (this : NonUniformSampling) : result Z :=
  Int.of_size (length (_samplePoints this)).

End NonUniformSampling.

(** ** Notions used to state the properties *)

(** The largest order [n] for which [1 + 8*(n*(n+1)/2)], the argument of the
    square root in [choleskyDecomposition], is an [int]. *)
Definition max_order : Z := 23169.

(** The largest order [n] for which every [i*(i+3)] with [i < n] is an
    [int]. *)
Definition max_diag_order : Z := 46340.

Section Draws.
Variable Random : Type.
Variable getNormal : Random -> double * Random.

(** The first [n] values of [getNormal], in the order drawn, and the
    generator after them. *)
Fixpoint draws (n : nat) (rng : Random) : list double * Random :=
  match n with
  | O => ([], rng)
  | S n' =>
      let '(r, rng1) := getNormal rng in
      let '(rs, rng2) := draws n' rng1 in
      (r :: rs, rng2)
  end.
End Draws.

(** Half the sum of the squares, summed from zero in index order. *)
Definition half_sum_squares (gs : list double) : double :=
  Double.div
    (foldl (fun acc g => Double.add acc (Double.mul g g)) Double.zero gs)
    (Double.of_int 2).

(** [w + U[0,j]*g[0] + ... + U[j,j]*g[j]], added in this order. *)
Definition sample_entry (U gs : list double) (j : nat) (w : double) : double :=
  foldl (fun acc i =>
           Double.add acc (Double.mul (vec_at U (packed_index i j)) (vec_at gs i)))
    w (seq 0 (S j)).

Definition sample (where_ U gs : list double) : list double :=
  imap (sample_entry U gs) where_.


(** The error [getErrors] derives from a diagonal element. *)
Definition error_of (sigsq : double) : double :=
  if Double.ltb Double.zero sigsq then Double.sqrt sigsq else Double.zero.

(** The square root of a diagonal element with zero substituted for a
    negative one, in the words of the specification. *)
Definition error_claimed (sigsq : double) : double :=
  if Double.ltb sigsq Double.zero then Double.zero else Double.sqrt sigsq.

(** The diagonal covariance of a vector of errors. *)
Definition is_diagonal_of (e c : list double) : Prop :=
  length c = tri (length e) /\
  (forall i x, e !! i = Some x -> c !! diag i = Some (Double.mul x x)) /\
  (forall k, (k < length c)%nat -> (forall i, (i < length e)%nat -> k <> diag i) ->
             c !! k = Some Double.zero).

(** Covariance and factor are both absent or both present, and a factor
    that is present has a strictly positive diagonal. *)
Definition positive_diagonal (u : list double) : Prop :=
  forall j d, u !! diag j = Some d -> Double.ltb Double.zero d = true.

Definition invariant (this : FunctionMinimum) : Prop :=
  match _covar this, _cholesky this with
  | None, None => True
  | Some _, Some u => positive_diagonal u
  | _, _ => False
  end.

(** What [choleskyDecomposition] gives for a packed matrix of order [n]:
    the array as [dpptrf] leaves it when [info] is zero, null otherwise. *)
Definition factor_of (dpptrf : Z -> list double -> list double * Z) (n : nat)
    (covar : list double) : PackedCovariancePtr :=
  if snd (dpptrf (Z.of_nat n) covar) =? 0
  then Some (fst (dpptrf (Z.of_nat n) covar)) else None.

(** The value of a finite number in units of [2^-1074], the least
    positive number of the format. *)
Definition units (x : double) : option Z :=
  match x with
  | S754_zero _ => Some 0
  | S754_finite s m e =>
      if -1074 <=? e
      then Some ((if s then Zneg m else Zpos m) * 2 ^ (e + 1074))
      else None
  | S754_infinity _ | S754_nan => None
  end.

(** Element [(i,j)] of the symmetric matrix held in packed storage. *)
Definition element (C : list double) (i j : nat) : double :=
  vec_at C (packed_index (Nat.min i j) (Nat.max i j)).

(** The quadratic form [x^T C x] at a vector [x] of integers, in the same
    units; none when an element that it needs is not finite. *)
Definition quadratic_form (C : list double) (x : list Z) : option Z :=
  foldr (fun i acc =>
           foldr (fun j acc =>
                    match units (element C i j), acc with
                    | Some a, Some s =>
                        Some (s + default 0 (x !! i) * default 0 (x !! j) * a)
                    | _, _ => None
                    end)
             acc (seq 0 (length x)))
    (Some 0) (seq 0 (length x)).

(** A matrix of order [n] is not positive definite when its quadratic
    form is not positive at some vector that is not zero. *)
Definition not_positive_definite (C : list double) (n : nat) : Prop :=
  exists x q, length x = n /\ Exists (fun xi => xi <> 0) x /\
              quadratic_form C x = Some q /\ q <= 0.

(** Zero of positive sign, a number greater than zero or positive
    infinity. *)
Definition sign_plus (x : double) : bool :=
  match x with
  | S754_zero false | S754_infinity false | S754_finite false _ _ => true
  | _ => false
  end.

Definition is_nan (x : double) : bool :=
  match x with S754_nan => true | _ => false end.

(** The concatenation of pieces of text. *)
Definition text (parts : list string) : string :=
  foldr String.append EmptyString parts.

(** The line that [printToStream] writes for the minimum, numbers shown by
    [show]. *)
Definition printed_minimum (show : double -> string) (minValue w0 : double)
    (ws : list double) : string :=
  ("F(" ++ show w0 ++ text (map (fun w => "," ++ show w) ws)
   ++ ") = " ++ show minValue ++ endl)%string.

(** The lines that it writes for a covariance: the errors, then the full
    matrix row by row, element [(i,j)] read from the packed element of the
    smaller and the larger index. *)
Definition printed_covariance (show : double -> string) (n : nat)
    (c : list double) : string :=
  ("ERRORS:"
   ++ text (map (fun i => " " ++ show (error_of (vec_at c (diag i)))) (seq 0 n))
   ++ endl ++ "COVARIANCE:" ++ endl
   ++ text (map (fun i =>
        text (map (fun j =>
                " " ++ show (vec_at c (packed_index (Nat.min i j) (Nat.max i j))))
                (seq 0 n))
        ++ endl) (seq 0 n)))%string.

(** Some sample point is greater than the one after it. *)
Fixpoint descends (v : list double) : bool :=
  match v with
  | a :: (b :: _) as rest => Double.ltb b a || descends rest
  | _ => false
  end.

Module Examples.
Definition d (z : Z) : double := Double.of_int z.
(** [2^-600] and [2^600]. *)
Definition tiny : double := S754_finite false 4503599627370496 (-652).
Definition huge : double := S754_finite false 4503599627370496 548.
Definition nan : double := S754_nan.
(** [2 - 2^-52], the number next below [2]. *)
Definition two_less : double := S754_finite false 9007199254740991 (-52).

(** [0.2] and [1.5]. *)
Definition fifth : double := S754_finite false 7205759403792794 (-55).
Definition three_halves : double := S754_finite false 6755399441055744 (-52).

(** [FitParameter("m", 1.5, 0.2)]. *)
Definition m_param : FitParameter := mkFitParameter "m" three_halves fifth.

(** A minimum at [(10, 20)] with covariance [[4, 0, 9]] and its factor. *)
Definition at_10_20 : FunctionMinimum :=
  mkFunctionMinimum (d 0) [d 10; d 20] (Some [d 4; d 0; d 9])
    (Some [d 2; d 0; d 3]).

Definition origin1 : FunctionMinimum := FunctionMinimum_ (d 0) [d 0].
Definition origin2 : FunctionMinimum := FunctionMinimum_ (d 0) [d 0; d 0].
End Examples.

(** * Properties *)

(** ** Binary64: the order recovered from a packed length

    [choleskyDecomposition] computes [floor(0.5*sqrt(1+8*nCov))] in
    [double].  For an [int] argument [x >= 1] the conversion is exact, the
    square root is the integer square root of [x] scaled by a power of
    four, rounded to 53 bits, and halving and flooring the result gives
    [Z.sqrt x / 2]: rounding up never reaches the next integer. *)

Lemma digits2_pos_size (p : positive) : digits2_pos p = Pos.size p.
Proof. induction p; simpl; congruence. Qed.

Lemma Zdigits_log2 (p : positive) : Zpos (digits2_pos p) = Z.log2 (Zpos p) + 1.
Proof.
  rewrite digits2_pos_size. destruct p; simpl; lia.
Qed.

Lemma Zdigits_unique (p : positive) (k : Z) :
  2 ^ (k - 1) <= Zpos p < 2 ^ k -> Zpos (digits2_pos p) = k.
Proof.
  intros H. rewrite Zdigits_log2.
  assert (0 < k).
  { destruct (Z.lt_trichotomy k 0) as [Hk|[Hk|Hk]]; [|subst; simpl in H; lia|lia].
    rewrite (Z.pow_neg_r 2 k) in H by lia. lia. }
  rewrite (Z.log2_unique (Zpos p) (k - 1)); try lia.
  replace (Z.succ (k - 1)) with k by lia. exact H.
Qed.

Lemma Zpos_iter_xO (p k : positive) :
  Zpos (Pos.iter xO p k) = Zpos p * 2 ^ Zpos k.
Proof.
  revert p. induction k using Pos.peano_ind; intros p.
  - simpl. lia.
  - rewrite Pos.iter_succ. rewrite Pos2Z.inj_xO, IHk.
    rewrite Pos2Z.inj_succ, Z.pow_succ_r by lia. lia.
Qed.

Lemma fexp_normal (e : Z) : -1074 <= e -> fexp 53 1024 (53 + e) = e.
Proof. intros H. unfold fexp, emin. lia. Qed.

Lemma Zdigits2_53 (m : Z) : 2 ^ 52 <= m < 2 ^ 53 -> Zdigits2 m = 53.
Proof.
  intros H. destruct m as [|p|p]; try lia.
  simpl. apply Zdigits_unique. exact H.
Qed.

Lemma loc_of_shr_record_of_loc (m : Z) (l : location) :
  loc_of_shr_record (shr_record_of_loc m l) = l.
Proof. destruct l as [|[]]; reflexivity. Qed.

Lemma shr_m_of_loc (m : Z) (l : location) : shr_m (shr_record_of_loc m l) = m.
Proof. destruct l as [|[]]; reflexivity. Qed.

Lemma shr_fexp_53 (m e : Z) (l : location) :
  2 ^ 52 <= m < 2 ^ 53 -> -1074 <= e ->
  shr_fexp 53 1024 m e l = (shr_record_of_loc m l, e).
Proof.
  intros Hm He. unfold shr_fexp.
  rewrite (Zdigits2_53 m Hm), (fexp_normal e He), Z.sub_diag. reflexivity.
Qed.

Lemma round_nearest_even_bounds (m : Z) (l : location) :
  m <= round_nearest_even m l <= m + 1.
Proof. destruct l as [|[]]; simpl; try lia. destruct (Z.even m); lia. Qed.

(** A mantissa of 53 bits is rounded in place, by its location alone. *)
Lemma binary_round_aux_53 (m e : Z) (l : location) :
  2 ^ 52 <= m -> round_nearest_even m l < 2 ^ 53 -> -1074 <= e <= 971 ->
  exists m' : positive,
    binary_round_aux 53 1024 false m e l = S754_finite false m' e /\
    Zpos m' = round_nearest_even m l.
Proof.
  intros Hlo Hhi He.
  pose proof (round_nearest_even_bounds m l) as Hr.
  unfold binary_round_aux.
  rewrite shr_fexp_53 by lia.
  rewrite loc_of_shr_record_of_loc, shr_m_of_loc.
  rewrite shr_fexp_53 by lia.
  simpl shr_m.
  destruct (round_nearest_even m l) as [|m'|m'] eqn:E; try lia.
  exists m'. split; [|reflexivity].
  replace (e <=? 1024 - 53) with true by (symmetry; apply Z.leb_le; lia).
  reflexivity.
Qed.

(** An [int] is converted exactly: its bits shifted to the top of the
    mantissa. *)
Lemma of_int_finite (x : Z) :
  1 <= x < 2 ^ 52 ->
  exists m : positive,
    Double.of_int x = S754_finite false m (Z.log2 x - 52) /\
    Zpos m = x * 2 ^ (52 - Z.log2 x) /\
    2 ^ 52 <= Zpos m < 2 ^ 53.
Proof.
  intros Hx. destruct x as [|p|p]; try lia.
  pose proof (Z.log2_spec (Zpos p) ltac:(lia)) as Hlog.
  assert (Hd : 0 <= Z.log2 (Zpos p) < 52).
  { split; [apply Z.log2_nonneg|].
    apply Z.log2_lt_pow2; lia. }
  unfold Double.of_int, binary_normalize, binary_round.
  rewrite Zdigits_log2.
  replace (fexp Double.prec Double.emax (Z.log2 (Zpos p) + 1 + 0))
    with (Z.log2 (Zpos p) - 52) by (unfold fexp, emin, Double.prec, Double.emax; lia).
  unfold shl_align.
  destruct (Z.log2 (Zpos p) - 52 - 0) as [|k|k] eqn:Ek; try lia.
  assert (Hm : Zpos (Pos.iter xO p k) = Zpos p * 2 ^ (52 - Z.log2 (Zpos p))).
  { rewrite Zpos_iter_xO. f_equal. f_equal. lia. }
  assert (Hpow : 2 ^ 52 = 2 ^ Z.log2 (Zpos p) * 2 ^ (52 - Z.log2 (Zpos p))).
  { rewrite <- Z.pow_add_r by lia. f_equal. lia. }
  assert (Hpos : 0 < 2 ^ (52 - Z.log2 (Zpos p))) by (apply Z.pow_pos_nonneg; lia).
  assert (Hlo : 2 ^ 52 <= Zpos (Pos.iter xO p k)).
  { rewrite Hm, Hpow. apply Z.mul_le_mono_nonneg_r; lia. }
  assert (Hhi : Zpos (Pos.iter xO p k) < 2 ^ 53).
  { rewrite Hm.
    replace (2 ^ 53) with (2 ^ Z.succ (Z.log2 (Zpos p)) * 2 ^ (52 - Z.log2 (Zpos p))).
    - apply Z.mul_lt_mono_pos_r; lia.
    - rewrite <- Z.pow_add_r by lia. f_equal. lia. }
  destruct (binary_round_aux_53 (Zpos (Pos.iter xO p k)) (Z.log2 (Zpos p) - 52) loc_Exact)
    as (m' & Hr & Hm'); [exact Hlo | exact Hhi | lia |].
  simpl round_nearest_even in Hm'.
  exists m'. split; [exact Hr|]. rewrite Hm'. split; [exact Hm|]. split; assumption.
Qed.

(** The square root of a normal number: the integer square root [q] of
    the mantissa scaled by [2^52] or [2^53], plus one when the remainder
    exceeds [q]. *)
Lemma sqrt_finite (m : positive) (e : Z) :
  2 ^ 52 <= Zpos m < 2 ^ 53 -> -1074 <= e <= 971 ->
  exists (M : positive) (q r : Z),
    Double.sqrt (S754_finite false m e) = S754_finite false M (Z.div2 (54 + e) - 53) /\
    Zpos m * 2 ^ (e - 2 * (Z.div2 (54 + e) - 53)) = q * q + r /\
    0 <= r <= 2 * q /\
    Zpos M = (if r <=? q then q else q + 1) /\
    2 ^ 52 <= Zpos M < 2 ^ 53.
Proof.
  intros Hm He.
  set (e' := Z.div2 (54 + e) - 53).
  assert (He' : e - 2 * e' = 52 \/ e - 2 * e' = 53).
  { unfold e'. rewrite Z.div2_div.
    pose proof (Z.div_mod (54 + e) 2 ltac:(lia)).
    pose proof (Z.mod_pos_bound (54 + e) 2 ltac:(lia)). lia. }
  assert (He'r : -563 <= e' <= 459).
  { unfold e'. rewrite Z.div2_div.
    pose proof (Z.div_mod (54 + e) 2 ltac:(lia)).
    pose proof (Z.mod_pos_bound (54 + e) 2 ltac:(lia)). lia. }
  unfold Double.sqrt, SFsqrt, SFsqrt_core_binary.
  replace (Zdigits2 (Zpos m)) with 53
    by (symmetry; apply Zdigits2_53; exact Hm).
  replace (Z.min (fexp Double.prec Double.emax (Z.div2 (53 + e + 1))) (Z.div2 e))
    with e'.
  2:{ unfold e', fexp, emin, Double.prec, Double.emax. rewrite !Z.div2_div.
      replace (53 + e + 1) with (54 + e) by lia.
      pose proof (Z.div_mod (54 + e) 2 ltac:(lia)).
      pose proof (Z.mod_pos_bound (54 + e) 2 ltac:(lia)).
      pose proof (Z.div_mod e 2 ltac:(lia)).
      pose proof (Z.mod_pos_bound e 2 ltac:(lia)). lia. }
  set (s := e - 2 * e') in *.
  assert (Hshift : match s with
                   | Zpos _ => Z.shiftl (Zpos m) s
                   | 0 => Zpos m
                   | Zneg _ => 0
                   end = Zpos m * 2 ^ s).
  { destruct s eqn:Es; try lia. rewrite Z.shiftl_mul_pow2 by lia. reflexivity. }
  rewrite Hshift.
  assert (Hm' : 2 ^ 104 <= Zpos m * 2 ^ s < 2 ^ 106).
  { clearbody s. destruct He' as [Es | Es]; rewrite Es; simpl; lia. }
  pose proof (Z.sqrtrem_spec (Zpos m * 2 ^ s) ltac:(lia)) as Hspec.
  destruct (Z.sqrtrem (Zpos m * 2 ^ s)) as [q r].
  destruct Hspec as (Hqr & Hr).
  assert (Hq : 2 ^ 52 <= q < 2 ^ 53).
  { split.
    - apply Z.nlt_ge. intros Hlt.
      assert (q * q <= (2 ^ 52 - 1) * (2 ^ 52 - 1)) by (apply Z.mul_le_mono_nonneg; lia).
      lia.
    - apply Z.nle_gt. intros Hge.
      assert (2 ^ 53 * 2 ^ 53 <= q * q) by (apply Z.mul_le_mono_nonneg; lia).
      lia. }
  set (l := if r =? 0 then loc_Exact else loc_Inexact (if r <=? q then Lt else Gt)).
  assert (Hround : round_nearest_even q l = if r <=? q then q else q + 1).
  { unfold l. destruct (Z.eqb_spec r 0) as [-> | Hne].
    - simpl. destruct (Z.leb_spec 0 q); [reflexivity | lia].
    - destruct (r <=? q); reflexivity. }
  assert (Hlt : round_nearest_even q l < 2 ^ 53).
  { rewrite Hround. destruct (Z.leb_spec r q) as [Hle | Hgt]; [lia|].
    (* rounding up cannot reach 2^53 *)
    destruct (Z.eq_dec q (2 ^ 53 - 1)) as [Heq | Hne]; [|lia].
    exfalso. subst q.
    destruct He' as [Es | Es]; rewrite Es in *; lia. }
  destruct (binary_round_aux_53 q e' l) as (M & HM & HMv); [lia | exact Hlt | lia |].
  exists M, q, r. split; [exact HM|]. split; [exact Hqr|]. split; [exact Hr|].
  rewrite HMv. split; [exact Hround|].
  pose proof (round_nearest_even_bounds q l). lia.
Qed.

(** [0.5 * x] lowers the exponent of a normal [x]. *)
Lemma mul_half_finite (M : positive) (e : Z) :
  2 ^ 52 <= Zpos M < 2 ^ 53 -> -1000 <= e <= 900 ->
  Double.mul Double.half (S754_finite false M e) = S754_finite false M (e - 1).
Proof.
  intros HM He.
  unfold Double.mul, SFmul, Double.half. simpl xorb.
  change (Pos.mul 4503599627370496 M) with (Pos.iter xO M 52).
  unfold binary_round_aux.
  assert (Hd : Zdigits2 (Zpos (Pos.iter xO M 52)) = 105).
  { unfold Zdigits2. apply Zdigits_unique. rewrite Zpos_iter_xO. lia. }
  assert (Hshr : shr_fexp Double.prec Double.emax (Zpos (Pos.iter xO M 52)) (-53 + e) loc_Exact
                 = ({| shr_m := Zpos M; shr_r := false; shr_s := false |}, e - 1)).
  { unfold shr_fexp. rewrite Hd.
    replace (fexp Double.prec Double.emax (105 + (-53 + e)) - (-53 + e)) with 52
      by (unfold fexp, emin, Double.prec, Double.emax; lia).
    unfold shr. f_equal. lia. }
  rewrite Hshr. simpl shr_m. simpl loc_of_shr_record. simpl round_nearest_even.
  rewrite shr_fexp_53 by lia.
  simpl shr_m.
  replace (e - 1 <=? Double.emax - Double.prec) with true
    by (symmetry; apply Z.leb_le; unfold Double.emax, Double.prec; lia).
  reflexivity.
Qed.

(** The integer content of the computation: [q] is the integer square root
    of [x * P^2], [M] its rounding, and [P] is far above [sqrt x]. *)
Lemma half_sqrt_scaled (x P q r M : Z) :
  0 <= x < 2 ^ 31 -> 2 ^ 37 <= P ->
  x * (P * P) = q * q + r -> 0 <= r <= 2 * q ->
  M = (if r <=? q then q else q + 1) ->
  M / (2 * P) = Z.sqrt x / 2.
Proof.
  intros Hx HP Hqr Hr HM.
  pose proof (Z.sqrt_spec x ltac:(lia)) as Hk. cbv zeta in Hk.
  pose proof (Z.sqrt_nonneg x) as Hk0.
  set (k := Z.sqrt x) in *.
  replace (Z.succ k) with (k + 1) in Hk by lia.
  assert (Hk16 : k < 2 ^ 16).
  { apply Z.nle_gt. intros Hge.
    assert (2 ^ 16 * 2 ^ 16 <= k * k) by (apply Z.mul_le_mono_nonneg; lia).
    lia. }
  assert (HPP : 0 < P * P) by (apply Z.mul_pos_pos; lia).
  assert (Hlo : k * P <= q).
  { apply Z.nlt_ge. intros Hlt.
    assert (0 <= k * P) by (apply Z.mul_nonneg_nonneg; lia).
    assert ((q + 1) * (q + 1) <= (k * P) * (k * P))
      by (apply Z.mul_le_mono_nonneg; lia).
    assert (k * k * (P * P) <= x * (P * P))
      by (apply Z.mul_le_mono_nonneg_r; lia).
    lia. }
  assert (Hhi : q < (k + 1) * P).
  { apply Z.nle_gt. intros Hge.
    assert (0 <= (k + 1) * P) by (apply Z.mul_nonneg_nonneg; lia).
    assert (((k + 1) * P) * ((k + 1) * P) <= q * q)
      by (apply Z.mul_le_mono_nonneg; lia).
    assert ((x + 1) * (P * P) <= (k + 1) * (k + 1) * (P * P))
      by (apply Z.mul_le_mono_nonneg_r; lia).
    lia. }
  pose proof (Z.div_mod k 2 ltac:(lia)) as Hdiv.
  pose proof (Z.mod_pos_bound k 2 ltac:(lia)) as Hmod.
  set (c := k / 2) in *.
  assert (HMq : q <= M <= q + 1) by (subst M; destruct (r <=? q); lia).
  assert (Hup : M < (k + 1) * P \/ (M = (k + 1) * P /\ q < r)).
  { subst M. destruct (Z.leb_spec r q); lia. }
  assert (Hstrict : M < (2 * c + 2) * P).
  { destruct Hup as [Hup | (Heq & Hgt)].
    - assert ((k + 1) * P <= (2 * c + 2) * P)
        by (apply Z.mul_le_mono_nonneg_r; lia).
      lia.
    - exfalso.
      (* q = (k+1) P - 1 and the remainder exceeds q *)
      assert (Hq : q = (k + 1) * P - 1) by lia.
      assert ((x + 1) * (P * P) <= (k + 1) * (k + 1) * (P * P))
        by (apply Z.mul_le_mono_nonneg_r; lia).
      assert (Hsq : q * q = (k + 1) * (k + 1) * (P * P) - 2 * ((k + 1) * P) + 1)
        by (rewrite Hq; ring).
      assert (P * P <= (k + 1) * P) by lia.
      assert ((k + 1) * P < P * P) by (apply Z.mul_lt_mono_pos_r; lia).
      lia. }
  assert (Hlow : 2 * c * P <= M).
  { assert (2 * c * P <= k * P) by (apply Z.mul_le_mono_nonneg_r; lia). lia. }
  symmetry. apply (Z.div_unique M (2 * P) c (M - 2 * P * c)); lia.
Qed.

(** The [double] expression of [choleskyDecomposition], on every positive
    [int]. *)
Lemma floor_half_sqrt (x : Z) :
  1 <= x <= Int.max ->
  Double.floor_to_int (Double.mul Double.half (Double.sqrt (Double.of_int x)))
  = Normal (Z.sqrt x / 2).
Proof.
  intros Hx. unfold Int.max in Hx.
  destruct (of_int_finite x ltac:(lia)) as (m & Hof & Hm & Hmr).
  assert (Hlog : 0 <= Z.log2 x <= 30).
  { split; [apply Z.log2_nonneg|].
    assert (Z.log2 x < 31) by (apply Z.log2_lt_pow2; lia). lia. }
  destruct (sqrt_finite m (Z.log2 x - 52) Hmr ltac:(lia))
    as (M & q & r & Hsqrt & Hqr & Hr & HM & HMr).
  rewrite Hof, Hsqrt.
  set (e' := Z.div2 (54 + (Z.log2 x - 52)) - 53) in *.
  assert (He' : -52 <= e' <= -37).
  { unfold e'. rewrite Z.div2_div.
    pose proof (Z.div_mod (54 + (Z.log2 x - 52)) 2 ltac:(lia)).
    pose proof (Z.mod_pos_bound (54 + (Z.log2 x - 52)) 2 ltac:(lia)). lia. }
  rewrite mul_half_finite by lia.
  unfold Double.floor_to_int, Double.floor.
  replace (0 <=? e' - 1) with false by (symmetry; apply Z.leb_gt; lia).
  assert (Hdiv : Zpos M / 2 ^ (- (e' - 1)) = Z.sqrt x / 2).
  { replace (2 ^ (- (e' - 1))) with (2 * 2 ^ (- e'))
      by (rewrite <- Z.pow_succ_r by lia; f_equal; lia).
    apply (half_sqrt_scaled x (2 ^ (- e')) q r); try lia.
    - apply (Z.pow_le_mono_r 2 37 (- e')); lia.
    - rewrite <- Hqr, Hm. rewrite <- Z.pow_add_r by lia.
      rewrite <- Z.mul_assoc, <- Z.pow_add_r by lia.
      f_equal. f_equal. lia. }
  rewrite Hdiv.
  assert (0 <= Z.sqrt x <= x).
  { split; [apply Z.sqrt_nonneg|]. apply Z.sqrt_le_lin. lia. }
  assert (0 <= Z.sqrt x / 2 <= Z.sqrt x).
  { split; [apply Z.div_pos; lia|]. apply Z.div_le_upper_bound; lia. }
  unfold Int.check, Int.in_range, Int.min, Int.max.
  replace (- 2 ^ 31 <=? Z.sqrt x / 2) with true by (symmetry; apply Z.leb_le; lia).
  replace (Z.sqrt x / 2 <=? 2 ^ 31 - 1) with true by (symmetry; apply Z.leb_le; lia).
  reflexivity.
Qed.

(** ** Binary64: the square root of a square

    [getErrors] takes the square root of the square [updateCovariance]
    stored.  The square of a normal [m * 2^e] is [m^2] rounded to 53 bits,
    off by at most half a unit, which is less than [m] times the unit; so
    the integer square root of the rounded square, rounded in its turn, is
    [m] again. *)









(** ** The sign of a rounded product

    The square of a number greater than zero is greater than zero, or the
    zero of positive sign, or infinite: [getErrors] takes its root. *)

Lemma iter_pos_invariant {A : Type} (P : A -> Prop) (f : A -> A) :
  (forall x, P x -> P (f x)) -> forall (n : positive) (x : A), P x -> P (SpecFloat.iter_pos f n x).
Proof.
  intros Hf. induction n as [n IH | n IH |]; intros x Hx; cbn [SpecFloat.iter_pos]; auto.
Qed.

Lemma shr_1_nonneg (mrs : shr_record) : 0 <= shr_m mrs -> 0 <= shr_m (shr_1 mrs).
Proof.
  destruct mrs as [m r s]. cbn [shr_m]. intros H.
  destruct m as [|[p|p|]|p]; cbn; lia.
Qed.

Lemma shr_fexp_nonneg (m e : Z) (l : location) :
  0 <= m -> 0 <= shr_m (fst (shr_fexp Double.prec Double.emax m e l)).
Proof.
  intros Hm. unfold shr_fexp, shr.
  assert (H0 : 0 <= shr_m (shr_record_of_loc m l)) by (rewrite shr_m_of_loc; exact Hm).
  destruct (fexp Double.prec Double.emax (Zdigits2 m + e) - e) as [|p|p];
    cbn [fst]; auto.
  apply iter_pos_invariant; [exact shr_1_nonneg | exact H0].
Qed.



(** ** Packed indices *)

Lemma tri_S (n : nat) : tri (S n) = (tri n + S n)%nat.
Proof.
  unfold tri.
  replace (S n * (S n + 1))%nat with (n * (n + 1) + S n * 2)%nat by lia.
  rewrite Nat.div_add by lia. reflexivity.
Qed.

Lemma tri_double (n : nat) : (2 * tri n = n * (n + 1))%nat.
Proof.
  induction n as [|n IH]; [reflexivity|]. rewrite tri_S. lia.
Qed.

Lemma diag_tri (i : nat) : diag i = (i + tri i)%nat.
Proof.
  unfold diag, tri.
  replace (i * (i + 3))%nat with (i * (i + 1) + i * 2)%nat by lia.
  rewrite Nat.div_add by lia. lia.
Qed.

Lemma diag_lt_tri (i n : nat) : (i < n)%nat -> (diag i < tri n)%nat.
Proof.
  intros H. rewrite diag_tri.
  induction H as [|m Hm IH]; rewrite tri_S; lia.
Qed.

Lemma tri_mono (n m : nat) : (n <= m)%nat -> (tri n <= tri m)%nat.
Proof. induction 1 as [|k Hk IH]; [lia|]. rewrite tri_S. lia. Qed.

Lemma diag_inj (i j : nat) : diag i = diag j -> i = j.
Proof.
  rewrite !diag_tri. intros H.
  destruct (Nat.lt_trichotomy i j) as [Hlt | [Heq | Hgt]]; [|exact Heq|].
  - pose proof (tri_mono i j ltac:(lia)). lia.
  - pose proof (tri_mono j i ltac:(lia)). lia.
Qed.



Lemma Z_tri (n : nat) : Z.of_nat (tri n) = Z.of_nat n * (Z.of_nat n + 1) / 2.
Proof.
  unfold tri. rewrite Nat2Z.inj_div. f_equal. lia.
Qed.

Lemma Z_tri_double (n : nat) : 2 * Z.of_nat (tri n) = Z.of_nat n * (Z.of_nat n + 1).
Proof. pose proof (tri_double n). nia. Qed.

Lemma sqrt_packed_length (n : nat) : Z.sqrt (1 + 8 * Z.of_nat (tri n)) / 2 = Z.of_nat n.
Proof.
  pose proof (Z_tri_double n) as H.
  replace (1 + 8 * Z.of_nat (tri n))
    with ((2 * Z.of_nat n + 1) * (2 * Z.of_nat n + 1)) by lia.
  rewrite Z.sqrt_square by lia.
  symmetry. apply (Z.div_unique _ 2 _ 1); lia.
Qed.

(** ** [int] arithmetic in range *)

Lemma check_in_range (z : Z) : Int.min <= z <= Int.max -> Int.check z = Normal z.
Proof.
  intros [Hlo Hhi]. unfold Int.check, Int.in_range.
  apply Z.leb_le in Hlo, Hhi. rewrite Hlo, Hhi. reflexivity.
Qed.

Lemma half_nonneg (z : Z) : 0 <= z -> Int.half z = z / 2.
Proof. intros H. unfold Int.half. apply Z.quot_div_nonneg; lia. Qed.

(** One [int] operation whose value the context shows to be in range. *)
Ltac int_step :=
  rewrite check_in_range by (unfold Int.min, Int.max; lia); cbn [bind].

Lemma max_order_arg (n : nat) :
  Z.of_nat n <= max_order -> 1 + 8 * Z.of_nat (tri n) <= Int.max.
Proof.
  unfold max_order, Int.max. intros H.
  pose proof (Z_tri_double n) as Hd.
  assert (Z.of_nat n * (Z.of_nat n + 1) <= 23169 * 23170)
    by (apply Z.mul_le_mono_nonneg; lia).
  lia.
Qed.

Lemma diag_index_normal (i : nat) :
  Z.of_nat i < max_diag_order -> diag_index i = Normal (diag i).
Proof.
  unfold max_diag_order. intros H.
  assert (Hp : 0 <= Z.of_nat i * (Z.of_nat i + 3) <= 46339 * 46342)
    by (split; [lia | apply Z.mul_le_mono_nonneg; lia]).
  unfold diag_index, Int.add, Int.mul.
  do 2 int_step. rewrite half_nonneg by lia.
  f_equal. unfold diag.
  rewrite <- (Nat2Z.id (i * (i + 3) / 2)). f_equal.
  rewrite Nat2Z.inj_div. f_equal. lia.
Qed.

Section Cholesky.
Variable dpptrf : Z -> list double -> list double * Z.

(** [choleskyDecomposition] with the [int] and [double] arithmetic carried
    out. *)
Lemma choleskyDecomposition_eq (covar : PackedCovariance) :
  1 + 8 * Z.of_nat (length covar) <= Int.max ->
  choleskyDecomposition dpptrf covar =
    let nPar := Z.sqrt (1 + 8 * Z.of_nat (length covar)) / 2 in
    if Z.of_nat (length covar) =? nPar * (nPar + 1) / 2 then
      do _ <- vec_get covar 0;
      if snd (dpptrf nPar covar) =? 0
      then Normal (Some (fst (dpptrf nPar covar)))
      else Normal None
    else Throw "choleskyDecomposition: internal error nCov ~ nPar".
Proof.
  intros HL. cbv zeta.
  set (L := Z.of_nat (length covar)) in *.
  assert (HL0 : 0 <= L) by (unfold L; lia).
  unfold Int.max in HL.
  unfold choleskyDecomposition, Int.of_size, Int.mul, Int.add.
  fold L.
  do 3 int_step.
  rewrite floor_half_sqrt by (unfold Int.max; lia).
  cbn [bind].
  set (nPar := Z.sqrt (1 + 8 * L) / 2).
  assert (Hn : 0 <= nPar <= 23170).
  { assert (0 <= Z.sqrt (1 + 8 * L)) by apply Z.sqrt_nonneg.
    assert (Z.sqrt (1 + 8 * L) < 46341) by (apply Z.sqrt_lt_square; lia).
    unfold nPar. split; [apply Z.div_pos; lia|].
    apply Z.div_le_upper_bound; lia. }
  assert (Hp : 0 <= nPar * (nPar + 1) <= 23170 * 23171)
    by (split; [lia | apply Z.mul_le_mono_nonneg; lia]).
  do 2 int_step. rewrite half_nonneg by lia.
  destruct (L =? nPar * (nPar + 1) / 2); cbn [negb]; [|reflexivity].
  destruct (vec_get covar 0); cbn [bind]; try reflexivity.
  destruct (dpptrf nPar covar) as [ap info]. cbn [fst snd].
  rewrite (Z.eqb_sym 0 info). destruct (info =? 0); reflexivity.
Qed.

Lemma choleskyDecomposition_packed (covar : PackedCovariance) (n : nat) :
  1 + 8 * Z.of_nat (length covar) <= Int.max -> length covar = tri n ->
  (1 <= n)%nat ->
  choleskyDecomposition dpptrf covar =
    if snd (dpptrf (Z.of_nat n) covar) =? 0
    then Normal (Some (fst (dpptrf (Z.of_nat n) covar)))
    else Normal None.
Proof.
  intros Hn Hlen H1.
  rewrite choleskyDecomposition_eq by exact Hn.
  cbv zeta. rewrite Hlen, sqrt_packed_length.
  rewrite <- Z_tri, Z.eqb_refl.
  destruct covar as [|x covar']; [|reflexivity].
  pose proof (tri_mono 1 n H1) as Ht. change (tri 1) with 1%nat in Ht.
  cbn [length] in Hlen. lia.
Qed.

End Cholesky.

(** ** Loops *)

(** A loop whose body keeps an invariant and completes normally under it
    completes normally, with the invariant. *)
Lemma for_loop_ind {S : Type} (P : nat -> S -> Prop) (body : nat -> S -> result S)
    (n i0 : nat) (s : S) :
  P i0 s ->
  (forall i s, (i0 <= i < i0 + n)%nat -> P i s ->
               exists s', body i s = Normal s' /\ P (Datatypes.S i) s') ->
  exists s', for_loop n i0 body s = Normal s' /\ P (i0 + n)%nat s'.
Proof.
  revert i0 s. induction n as [|n IH]; intros i0 s H0 Hstep.
  - exists s. split; [reflexivity|]. rewrite Nat.add_0_r. exact H0.
  - destruct (Hstep i0 s ltac:(lia) H0) as (s1 & Hb & H1).
    destruct (IH (Datatypes.S i0) s1 H1) as (s' & Hl & H').
    + intros i t Hi Ht. apply Hstep; [lia | exact Ht].
    + exists s'. split.
      * cbn [for_loop]. rewrite Hb. cbn [bind]. exact Hl.
      * replace (i0 + Datatypes.S n)%nat with (Datatypes.S i0 + n)%nat by lia.
        exact H'.
Qed.

Lemma vec_get_lookup (v : list double) (k : nat) (x : double) :
  v !! k = Some x -> vec_get v k = Normal x.
Proof. intros H. unfold vec_get. rewrite H. reflexivity. Qed.

Lemma vec_get_at (v : list double) (k : nat) :
  (k < length v)%nat -> vec_get v k = Normal (vec_at v k).
Proof.
  intros H. destruct (lookup_lt_is_Some_2 v k H) as [x Hx].
  unfold vec_get, vec_at. rewrite Hx. reflexivity.
Qed.

Lemma vec_set_lt (v : list double) (k : nat) (x : double) :
  (k < length v)%nat -> vec_set v k x = Normal (<[k := x]> v).
Proof. intros H. unfold vec_set. rewrite decide_True by exact H. reflexivity. Qed.

Lemma fill_diagonal_spec (covar : list double) :
  Z.of_nat (length covar) <= max_diag_order ->
  exists c, fill_diagonal (length covar) covar
              (replicate (tri (length covar)) Double.zero) = Normal c /\
            is_diagonal_of covar c.
Proof.
  intros Hn. set (n := length covar) in *. set (N := tri n).
  destruct (for_loop_ind
    (fun i c =>
       length c = N /\
       (forall j x, (j < i)%nat -> covar !! j = Some x ->
                    c !! diag j = Some (Double.mul x x)) /\
       (forall k, (k < N)%nat -> (forall j, (j < i)%nat -> k <> diag j) ->
                  c !! k = Some Double.zero))
    (fun i c =>
       do error <- vec_get covar i;
       do k <- diag_index i;
       vec_set c k (Double.mul error error))
    n 0%nat (replicate N Double.zero)) as (c & Hc & Hlen & Hdiag & Hoff).
  - split; [apply length_replicate|]. split; [intros; lia|].
    intros k Hk _. apply lookup_replicate_2. exact Hk.
  - intros i c Hi (Hlen & Hdiag & Hoff).
    destruct (lookup_lt_is_Some_2 covar i ltac:(fold n; lia)) as [x Hx].
    exists (<[diag i := Double.mul x x]> c). split.
    + rewrite (vec_get_lookup _ _ _ Hx). cbn [bind].
      rewrite diag_index_normal by lia. cbn [bind].
      apply vec_set_lt. rewrite Hlen. apply diag_lt_tri. lia.
    + split; [rewrite length_insert; exact Hlen|]. split.
      * intros j y Hj Hy. destruct (decide (j = i)) as [-> | Hne].
        -- rewrite Hx in Hy. injection Hy as <-.
           apply list_lookup_insert_eq. rewrite Hlen. apply diag_lt_tri. lia.
        -- rewrite list_lookup_insert_ne by (intros Heq; apply diag_inj in Heq; lia).
           apply Hdiag; [lia | exact Hy].
      * intros k Hk Hnd.
        rewrite list_lookup_insert_ne by (intros Heq; apply (Hnd i); [lia | auto]).
        apply Hoff; [exact Hk|]. intros j Hj. apply Hnd. lia.
  - exists c. split; [exact Hc|]. split; [exact Hlen|]. split.
    + intros i x Hx. apply Hdiag; [|exact Hx].
      apply lookup_lt_Some in Hx. fold n in Hx. lia.
    + intros k Hk Hnd. apply Hoff; [rewrite <- Hlen; exact Hk|].
      intros j Hj. apply Hnd. fold n. lia.
Qed.

(** ** getErrors *)

Lemma of_size_in_range (n : nat) :
  Z.of_nat n <= Int.max -> Int.of_size n = Normal (Z.of_nat n).
Proof.
  intros H. unfold Int.of_size. apply check_in_range. unfold Int.min. lia.
Qed.

(** [getErrors] in closed form. *)
Lemma getErrors_spec (this : FunctionMinimum) (c : list double) :
  _covar this = Some c ->
  Z.of_nat (length (_where this)) <= max_diag_order ->
  (tri (length (_where this)) <= length c)%nat ->
  getErrors this
  = Normal (map (fun i => error_of (vec_at c (diag i)))
              (seq 0 (length (_where this)))).
Proof.
  intros Hc Hn Hlen. set (n := length (_where this)) in *.
  unfold getErrors, haveCovariance. rewrite Hc. cbn [negb].
  rewrite of_size_in_range by (unfold max_diag_order, Int.max in *; lia).
  cbn [bind]. rewrite Nat2Z.id. fold n.
  destruct (for_loop_ind
    (fun i errors =>
       length errors = n /\
       forall j, (j < i)%nat -> errors !! j = Some (error_of (vec_at c (diag j))))
    (fun i errors =>
       do k <- diag_index i;
       do c <- deref (Some c);
       do sigsq <- vec_get c k;
       vec_set errors i
         (if Double.ltb Double.zero sigsq then Double.sqrt sigsq else Double.zero))
    n 0%nat (replicate n Double.zero)) as (errors & He & Hl & Hv).
  - split; [apply length_replicate | intros; lia].
  - intros i errors Hi (Hl & Hv).
    exists (<[i := error_of (vec_at c (diag i))]> errors). split.
    + rewrite diag_index_normal by lia. cbn [bind deref].
      rewrite vec_get_at by (pose proof (diag_lt_tri i n ltac:(lia)); lia).
      cbn [bind]. apply vec_set_lt. lia.
    + split; [rewrite length_insert; exact Hl|].
      intros j Hj. destruct (decide (j = i)) as [-> | Hne].
      * apply list_lookup_insert_eq. lia.
      * rewrite list_lookup_insert_ne by auto. apply Hv. lia.
  - rewrite He. f_equal. apply list_eq. intros j.
    rewrite list_lookup_fmap.
    destruct (decide (j < n)%nat) as [Hj | Hj].
    + rewrite lookup_seq_lt by exact Hj. cbn. apply Hv. lia.
    + rewrite lookup_seq_ge by lia. cbn. apply lookup_ge_None. lia.
Qed.

(** ** updateCovariance *)

Lemma positive_not_le_zero (x : double) :
  Double.ltb Double.zero x = true -> Double.leb x Double.zero = false.
Proof. destruct x as [s|s| |s m e]; try destruct s; cbn; congruence. Qed.

Lemma all_positive_none_le_zero (e : list double) :
  Forall (fun x => Double.ltb Double.zero x = true) e ->
  existsb (fun x => Double.leb x Double.zero) e = false.
Proof.
  induction 1 as [|x e Hx _ IH]; [reflexivity|].
  cbn [existsb]. rewrite (positive_not_le_zero x Hx), IH. reflexivity.
Qed.

Section Update.
Variable dpptrf : Z -> list double -> list double * Z.

Lemma sizes_in_range (n : nat) :
  Z.of_nat n <= max_diag_order ->
  Int.of_size n = Normal (Z.of_nat n) /\
  Int.add (Z.of_nat n) 1 = Normal (Z.of_nat n + 1) /\
  Int.mul (Z.of_nat n) (Z.of_nat n + 1) = Normal (Z.of_nat n * (Z.of_nat n + 1)) /\
  Int.half (Z.of_nat n * (Z.of_nat n + 1)) = Z.of_nat (tri n).
Proof.
  unfold max_diag_order. intros Hn.
  assert (Hp : 0 <= Z.of_nat n * (Z.of_nat n + 1) <= 46340 * 46341)
    by (split; [lia | apply Z.mul_le_mono_nonneg; lia]).
  split; [apply of_size_in_range; unfold Int.max; lia|].
  split; [apply check_in_range; unfold Int.min, Int.max; lia|].
  split; [apply check_in_range; unfold Int.min, Int.max; lia|].
  rewrite half_nonneg by lia. rewrite <- Z_tri. reflexivity.
Qed.

Lemma full_shape_outcome (this : FunctionMinimum) (covar : PackedCovariance) :
  (1 <= length (_where this))%nat ->
  Z.of_nat (length (_where this)) <= max_order ->
  length covar = tri (length (_where this)) ->
  updateCovariance dpptrf covar false this =
    match factor_of dpptrf (length (_where this)) covar with
    | Some u =>
        FallsOffEnd
          (mkFunctionMinimum (_minValue this) (_where this) (Some covar) (Some u))
    | None => Returns false this
    end.
Proof.
  intros Hpos Hn Hlen. unfold updateCovariance.
  destruct (sizes_in_range (length (_where this))) as (H1 & H2 & H3 & H4);
    [unfold max_order, max_diag_order in *; lia|].
  rewrite H1. cbn [lift]. rewrite H2. cbn [lift]. rewrite H3. cbn [lift].
  rewrite H4.
  rewrite Hlen, Z.eqb_refl. cbn [negb].
  rewrite (choleskyDecomposition_packed dpptrf covar (length (_where this)))
    by (rewrite ?Hlen; auto using max_order_arg).
  unfold factor_of.
  destruct (snd (dpptrf (Z.of_nat (length (_where this))) covar) =? 0);
    reflexivity.
Qed.

Lemma errors_shape_outcome (this : FunctionMinimum) (e : PackedCovariance) :
  (1 <= length (_where this))%nat ->
  Z.of_nat (length (_where this)) <= max_order ->
  length e = length (_where this) ->
  Forall (fun x => Double.ltb Double.zero x = true) e ->
  exists c,
    is_diagonal_of e c /\
    updateCovariance dpptrf e true this
    = FallsOffEnd
        (mkFunctionMinimum (_minValue this) (_where this) (Some c)
           (factor_of dpptrf (length (_where this)) c)).
Proof.
  intros Hone Hn Hlen Hpos.
  destruct (fill_diagonal_spec e) as (c & Hfill & Hdiag).
  { rewrite Hlen. unfold max_order, max_diag_order in *. lia. }
  exists c. split; [exact Hdiag|].
  unfold updateCovariance.
  destruct (sizes_in_range (length (_where this))) as (H1 & H2 & H3 & H4);
    [unfold max_order, max_diag_order in *; lia|].
  rewrite H1. cbn [lift]. rewrite H2. cbn [lift]. rewrite H3. cbn [lift].
  rewrite H4.
  rewrite Hlen, Z.eqb_refl. cbn [negb].
  rewrite (all_positive_none_le_zero e Hpos).
  rewrite !Nat2Z.id. rewrite <- Hlen. rewrite Hfill. cbn [lift].
  destruct Hdiag as (Hc & _).
  rewrite (choleskyDecomposition_packed dpptrf c (length e))
    by (rewrite ?Hc, ?Hlen; auto; apply max_order_arg; exact Hn).
  unfold factor_of. rewrite Hlen.
  destruct (snd (dpptrf (Z.of_nat (length (_where this))) c) =? 0);
    reflexivity.
Qed.
End Update.

(** ** setRandomParameters *)

Lemma insert_middle (l1 l2 : list double) (x y : double) (k : nat) :
  k = length l1 -> <[k := y]> (l1 ++ x :: l2) = l1 ++ y :: l2.
Proof.
  intros ->. induction l1 as [|a l1 IH]; [reflexivity|]. cbn. f_equal. exact IH.
Qed.

Lemma for_loop_S {S : Type} (n i0 : nat) (body : nat -> S -> result S) (s : S) :
  for_loop (Datatypes.S n) i0 body s
  = do s' <- body i0 s; for_loop n (Datatypes.S i0) body s'.
Proof. reflexivity. Qed.

Section Sampling.
Variable Random : Type.
Variable getNormal : Random -> double * Random.

Lemma draws_length (n : nat) (rng : Random) :
  length (fst (draws Random getNormal n rng)) = n.
Proof.
  revert rng. induction n as [|n IH]; intros rng; [reflexivity|].
  cbn [draws]. destruct (getNormal rng) as [r rng1].
  specialize (IH rng1). destruct (draws Random getNormal n rng1) as [rs rng2].
  cbn in *. rewrite IH. reflexivity.
Qed.

(** The first loop, from any index on: the elements of [where] not yet
    copied are [wt], those copied are [wd]. *)
Lemma draw_loop (this : FunctionMinimum) (wt : list double) :
  forall (wd pd pt rest gd gt : list double) (w : double) (rng : Random),
    _where this = wd ++ wt ->
    length pd = length wd -> length pt = length wt ->
    length gd = length wd -> length gt = length wt ->
    for_loop (length wt) (length wd) (draw_step Random getNormal this)
      (mkDraw Random (pd ++ pt ++ rest) (gd ++ gt) w rng)
    = Normal
        (mkDraw Random (pd ++ wt ++ rest)
           (gd ++ fst (draws Random getNormal (length wt) rng))
           (foldl (fun acc g => Double.add acc (Double.mul g g)) w
              (fst (draws Random getNormal (length wt) rng)))
           (snd (draws Random getNormal (length wt) rng))).
Proof.
  induction wt as [|x wt IH]; intros wd pd pt rest gd gt w rng Hw Hpd Hpt Hgd Hgt.
  - destruct pt; [|discriminate]. destruct gt; [|discriminate]. reflexivity.
  - destruct pt as [|y pt]; [discriminate|]. destruct gt as [|z gt]; [discriminate|].
    cbn [length] in Hpt, Hgt.
    cbn [length for_loop draws app].
    unfold draw_step at 1. cbn [d_params d_gauss d_nlWeight d_random].
    rewrite (vec_get_lookup (_where this) (length wd) x)
      by (rewrite Hw; apply list_lookup_middle; reflexivity).
    cbn [bind].
    rewrite vec_set_lt by (rewrite !length_app; cbn [length]; lia).
    cbn [bind].
    destruct (getNormal rng) as [r rng1].
    rewrite vec_set_lt by (rewrite !length_app; cbn [length]; lia).
    cbn [bind].
    rewrite (insert_middle pd (pt ++ rest) y x) by auto.
    rewrite (insert_middle gd gt z r) by auto.
    specialize (IH (wd ++ [x]) (pd ++ [x]) pt rest (gd ++ [r]) gt
                  (Double.add w (Double.mul r r)) rng1).
    rewrite !length_app in IH. cbn [length] in IH.
    replace (length wd + 1)%nat with (Datatypes.S (length wd)) in IH by lia.
    rewrite <- !app_assoc in IH. cbn [app] in IH.
    rewrite IH; try lia; try (rewrite Hw; reflexivity).
    destruct (draws Random getNormal (length wt) rng1) as [rs rng2].
    reflexivity.
Qed.

(** The inner loop of the multiplication on column [j], whose elements
    start at position [off] of the factor. *)
Lemma mult_inner (U g : list double) (j off : nat) (pd tl : list double) :
  length pd = j ->
  forall (k i0 : nat) (acc : double),
    (i0 + k + off <= length U)%nat -> (i0 + k <= length g)%nat ->
    for_loop k i0 (mult_step U g j) (pd ++ acc :: tl, (i0 + off)%nat)
    = Normal
        (pd ++ foldl (fun a i =>
                        Double.add a (Double.mul (vec_at U (i + off)) (vec_at g i)))
                 acc (seq i0 k) :: tl,
         (i0 + k + off)%nat).
Proof.
  intros Hj. induction k as [|k IH]; intros i0 acc HU Hg.
  - cbn. rewrite Nat.add_0_r. reflexivity.
  - cbn [for_loop seq foldl]. unfold mult_step at 1.
    rewrite vec_get_at by lia. cbn [bind].
    rewrite vec_get_at by lia. cbn [bind].
    rewrite (vec_get_lookup (pd ++ acc :: tl) j acc)
      by (apply list_lookup_middle; auto).
    cbn [bind].
    rewrite vec_set_lt by (rewrite !length_app; cbn [length]; lia).
    cbn [bind]. rewrite insert_middle by auto.
    change (Datatypes.S (i0 + off)) with (Datatypes.S i0 + off)%nat.
    rewrite IH by lia. do 2 f_equal. lia.
Qed.

Lemma mult_column (U g pd tl : list double) (w : double) :
  (tri (Datatypes.S (length pd)) <= length U)%nat ->
  (Datatypes.S (length pd) <= length g)%nat ->
  for_loop (Datatypes.S (length pd)) 0 (mult_step U g (length pd))
    (pd ++ w :: tl, tri (length pd))
  = Normal (pd ++ sample_entry U g (length pd) w :: tl,
            tri (Datatypes.S (length pd))).
Proof.
  intros HU Hg. rewrite tri_S in HU.
  pose proof (mult_inner U g (length pd) (tri (length pd)) pd tl eq_refl
                (Datatypes.S (length pd)) 0%nat w) as H.
  cbn [Nat.add] in H. rewrite H by lia.
  rewrite tri_S. do 2 f_equal. lia.
Qed.

(** The outer loop, from any column on: the iterator is at the start of
    the column. *)
Lemma mult_outer (U g : list double) (todo : list double) :
  forall (done rest : list double),
    (tri (length done + length todo) <= length U)%nat ->
    (length done + length todo <= length g)%nat ->
    for_loop (length todo) (length done)
      (fun j => for_loop (Datatypes.S j) 0 (mult_step U g j))
      (done ++ todo ++ rest, tri (length done))
    = Normal
        (done ++ imap (fun t => sample_entry U g (length done + t)) todo ++ rest,
         tri (length done + length todo)).
Proof.
  induction todo as [|w todo IH]; intros done rest HU Hg.
  - cbn. rewrite Nat.add_0_r. reflexivity.
  - cbn [length] in HU, Hg. cbn [length].
    rewrite (for_loop_S (length todo)).
    pose proof (tri_mono (Datatypes.S (length done))
                  (length done + Datatypes.S (length todo)) ltac:(lia)) as Hm.
    change ((w :: todo) ++ rest) with (w :: todo ++ rest).
    rewrite mult_column by lia.
    cbn [bind].
    specialize (IH (done ++ [sample_entry U g (length done) w]) rest).
    rewrite !length_app in IH. cbn [length] in IH.
    replace (length done + 1)%nat with (Datatypes.S (length done)) in IH by lia.
    rewrite <- !app_assoc in IH. cbn [app] in IH.
    rewrite IH by (try replace (Datatypes.S (length done) + length todo)%nat
                     with (length done + Datatypes.S (length todo))%nat by lia;
                   lia).
    cbn [imap app]. rewrite Nat.add_0_r.
    replace (length done + Datatypes.S (length todo))%nat
      with (Datatypes.S (length done) + length todo)%nat by lia.
    do 5 f_equal.
    apply imap_ext. intros t x _. unfold compose.
    replace (length done + Datatypes.S t)%nat
      with (Datatypes.S (length done) + t)%nat by lia.
    reflexivity.
Qed.

(** [setRandomParameters] in closed form. *)
Lemma setRandomParameters_spec (this : FunctionMinimum) (U dst : list double)
    (rng : Random) :
  haveCovariance this = true ->
  _cholesky this = Some U ->
  Z.of_nat (length (_where this)) <= Int.max ->
  (tri (length (_where this)) <= length U)%nat ->
  (length (_where this) <= length dst)%nat ->
  setRandomParameters Random getNormal dst this rng
  = Normal
      (half_sum_squares (fst (draws Random getNormal (length (_where this)) rng)),
       sample (_where this) U
         (fst (draws Random getNormal (length (_where this)) rng))
       ++ drop (length (_where this)) dst,
       snd (draws Random getNormal (length (_where this)) rng)).
Proof.
  intros Hc HU Hn HlenU Hdst.
  unfold setRandomParameters. rewrite Hc. cbn [negb].
  rewrite of_size_in_range by exact Hn. cbn [bind]. rewrite Nat2Z.id.
  set (n := length (_where this)) in *.
  pose proof (draw_loop this (_where this) [] [] (take n dst) (drop n dst) []
                (replicate n Double.zero) Double.zero rng eq_refl eq_refl) as H1.
  cbn [app length] in H1. fold n in H1.
  rewrite take_drop in H1.
  rewrite H1 by (rewrite ?length_take, ?length_replicate; auto; lia).
  cbn [bind d_params d_gauss d_nlWeight d_random].
  rewrite HU. cbn [deref bind].
  pose proof (mult_outer U (fst (draws Random getNormal n rng)) (_where this)
                [] (drop n dst)) as H2.
  cbn [app length Nat.add] in H2. fold n in H2.
  change (tri 0) with 0%nat in H2.
  rewrite H2 by (rewrite ?draws_length; lia).
  cbn [bind fst]. reflexivity.
Qed.
End Sampling.

Import Examples.

(** ** What throws *)

Lemma bind_no_throw {A B : Type} (r : result A) (k : A -> result B) :
  (forall what, r <> Throw what) -> (forall a what, k a <> Throw what) ->
  forall what, bind r k <> Throw what.
Proof.
  intros Hr Hk what. destruct r as [a| w |]; cbn; [apply Hk | | discriminate].
  exfalso. exact (Hr w eq_refl).
Qed.

Lemma for_loop_no_throw {S : Type} (body : nat -> S -> result S) :
  (forall i s what, body i s <> Throw what) ->
  forall n i0 s what, for_loop n i0 body s <> Throw what.
Proof.
  intros Hb. induction n as [|n IH]; intros i0 s what; cbn [for_loop]; [discriminate|].
  apply bind_no_throw; [apply Hb | intros; apply IH].
Qed.

Lemma check_no_throw (z : Z) (what : string) : Int.check z <> Throw what.
Proof. unfold Int.check. destruct (Int.in_range z); discriminate. Qed.

Lemma vec_get_no_throw (v : list double) (k : nat) (what : string) :
  vec_get v k <> Throw what.
Proof. unfold vec_get. destruct (v !! k); discriminate. Qed.

Lemma vec_set_no_throw (v : list double) (k : nat) (x : double) (what : string) :
  vec_set v k x <> Throw what.
Proof. unfold vec_set. case_decide; discriminate. Qed.

Lemma diag_index_no_throw (i : nat) (what : string) : diag_index i <> Throw what.
Proof.
  unfold diag_index, Int.add, Int.mul.
  apply bind_no_throw; [intros; apply check_no_throw|]. intros a w.
  apply bind_no_throw; [intros; apply check_no_throw|]. discriminate.
Qed.

Lemma deref_no_throw {A : Type} (p : option A) (what : string) :
  deref p <> Throw what.
Proof. destruct p; discriminate. Qed.

(** Nothing but the test of the covariance at its entry makes a member
    function throw: what follows is built from steps that do not. *)
Ltac no_throw :=
  repeat first
    [ apply check_no_throw | apply vec_get_no_throw | apply vec_set_no_throw
    | apply diag_index_no_throw | apply deref_no_throw
    | apply for_loop_no_throw; intros
    | apply bind_no_throw; intros
    | match goal with
      | |- context [let '(_, _) := ?p in _] => destruct p
      end
    | discriminate ].

Lemma getErrors_throws (this : FunctionMinimum) (what : string) :
  getErrors this = Throw what -> haveCovariance this = false.
Proof.
  unfold getErrors. destruct (haveCovariance this); [|reflexivity].
  cbn [negb]. intros H. exfalso. revert H. no_throw.
Qed.

Lemma setRandomParameters_throws (Random : Type)
    (getNormal : Random -> double * Random) (this : FunctionMinimum)
    (dst : Parameters) (rng : Random) (what : string) :
  setRandomParameters Random getNormal dst this rng = Throw what ->
  haveCovariance this = false.
Proof.
  unfold setRandomParameters. destruct (haveCovariance this); [|reflexivity].
  cbn [negb]. intros H. exfalso. revert H.
  unfold draw_step, mult_step. no_throw.
Qed.

(** * The specification, statement by statement *)

(** ** FitParameter *)

(** C7. A floating parameter that is fixed and then released has its value
    and its error back, and is floating again; while fixed it carries the
    negated error and is not floating. *)
Theorem fix_release_restores (p : FitParameter) :
  FitParameter.isFloating p = true ->
  let p' := FitParameter.release (FitParameter.fix_ p) in
  FitParameter.getValue p' = FitParameter.getValue p /\
  FitParameter.getError p' = FitParameter.getError p /\
  FitParameter.isFloating p' = true /\
  FitParameter.getError (FitParameter.fix_ p) = Double.opp (FitParameter.getError p) /\
  FitParameter.isFloating (FitParameter.fix_ p) = false.
Proof.
  destruct p as [name value error].
  unfold FitParameter.isFloating, FitParameter.release, FitParameter.fix_,
    FitParameter.getValue, FitParameter.getError.
  cbn [_error _value _name]. intros Hpos. rewrite Hpos. cbn [_error _value _name].
  destruct error as [s|s| |s m e]; try destruct s; cbn in Hpos; try discriminate;
    cbn; auto.
Qed.

Lemma fix_release_restores_witness :
  FitParameter.isFloating m_param = true /\
  (let p' := FitParameter.release (FitParameter.fix_ m_param) in
   FitParameter.getValue p' = FitParameter.getValue m_param /\
   FitParameter.getError p' = FitParameter.getError m_param /\
   FitParameter.isFloating p' = true /\
   FitParameter.getError (FitParameter.fix_ m_param)
   = Double.opp (FitParameter.getError m_param) /\
   FitParameter.isFloating (FitParameter.fix_ m_param) = false).
Proof.
  split; [reflexivity | apply (fix_release_restores m_param); reflexivity].
Defined.

(** ** updateParameters *)

(** C9. [updateParameters] replaces the point and the minimum value and
    leaves the stored covariance and factor, present or absent, as they
    were. *)
Theorem updateParameters_frame (params : Parameters) (fval : double)
    (this : FunctionMinimum) :
  let this' := updateParameters params fval this in
  _where this' = params /\
  _minValue this' = fval /\
  _covar this' = _covar this /\
  _cholesky this' = _cholesky this /\
  haveCovariance this' = haveCovariance this.
Proof. cbv zeta. unfold updateParameters, haveCovariance. cbn. auto. Qed.

(** ** choleskyDecomposition *)






(** The factor of the covariance [[4, 1, 9]], and the covariance after the
    call. *)
Example factor_4_1_9 :
  Store.choleskyDecomposition Lapack.dpptrf 0 [[d 4; d 1; d 9]]
  = (Normal (Some 1%nat),
     [[d 4; d 1; d 9]; fst (Lapack.dpptrf 2 [d 4; d 1; d 9])]).
Proof. vm_compute. reflexivity. Qed.

(** ** updateCovariance, full-matrix shape *)

(** What the full-matrix shape does with an accepted covariance, whatever
    the Cholesky primitive: covariance and factor are stored, no value is
    returned, and [getErrors] then gives the square roots of the diagonal
    elements that are greater than zero. *)
Lemma full_shape_accepted
    (dpptrf : Z -> list double -> list double * Z)
    (this : FunctionMinimum) (covar : PackedCovariance) :
  (1 <= length (_where this))%nat ->
  Z.of_nat (length (_where this)) <= max_order ->
  length covar = tri (length (_where this)) ->
  snd (dpptrf (Z.of_nat (length (_where this))) covar) = 0 ->
  let this' :=
    mkFunctionMinimum (_minValue this) (_where this) (Some covar)
      (Some (fst (dpptrf (Z.of_nat (length (_where this))) covar))) in
  updateCovariance dpptrf covar false this = FallsOffEnd this' /\
  (forall b s, updateCovariance dpptrf covar false this <> Returns b s) /\
  getErrors this'
  = Normal (map (fun i => error_of (vec_at covar (diag i)))
              (seq 0 (length (_where this)))).
Proof.
  intros Hone Hn Hlen Hinfo this'.
  assert (Hup : updateCovariance dpptrf covar false this = FallsOffEnd this').
  { rewrite (full_shape_outcome dpptrf this covar Hone Hn Hlen).
    unfold factor_of. rewrite Hinfo. reflexivity. }
  split; [exact Hup|]. split; [intros b s; rewrite Hup; discriminate|].
  apply (getErrors_spec this' covar eq_refl); cbn [_where this'].
  - unfold max_order, max_diag_order in *. lia.
  - rewrite Hlen. lia.
Qed.

(** C1. On the accepted covariance [[4, 1, 9]] for two parameters the call
    stores the covariance and its factor and then reaches the end of
    [updateCovariance] without returning a value: [true] is not returned,
    and the constructor that tests the returned value has none to test.
    [getErrors] afterwards gives [2] and [3], the square roots of the
    diagonal. *)
Theorem updateCovariance_accepted_returns_nothing :
  snd (Lapack.dpptrf 2 [d 4; d 1; d 9]) = 0 /\
  exists this',
    updateCovariance Lapack.dpptrf [d 4; d 1; d 9] false origin2 = FallsOffEnd this' /\
    (forall b s,
       updateCovariance Lapack.dpptrf [d 4; d 1; d 9] false origin2 <> Returns b s) /\
    _covar this' = Some [d 4; d 1; d 9] /\
    _cholesky this' = Some (fst (Lapack.dpptrf 2 [d 4; d 1; d 9])) /\
    getErrors this' = Normal [d 2; d 3] /\
    [Double.sqrt (d 4); Double.sqrt (d 9)] = [d 2; d 3] /\
    FunctionMinimum_covar Lapack.dpptrf (d 0) [d 0; d 0] [d 4; d 1; d 9] false
    = Undefined.
Proof.
  assert (Hinfo : snd (Lapack.dpptrf 2 [d 4; d 1; d 9]) = 0)
    by (vm_compute; reflexivity).
  split; [exact Hinfo|].
  destruct (full_shape_accepted Lapack.dpptrf origin2 [d 4; d 1; d 9])
    as (Hup & Hno & Hget);
    [cbn; lia | vm_compute; discriminate | reflexivity | exact Hinfo |].
  eexists. split; [exact Hup|]. split; [exact Hno|].
  split; [reflexivity|]. split; [reflexivity|].
  split; [rewrite Hget; vm_compute; reflexivity|].
  split; vm_compute; reflexivity.
Qed.

(** C2, as amended. When the covariance has the packed length for the [n]
    parameters, [n] from one up to [max_order], and [dpptrf] reports a
    status that is not zero for it, [updateCovariance(covar, false)]
    returns [false] and the object is the one before the call: its
    covariance, its factor, its parameters and its minimum are what they
    were. *)
Theorem updateCovariance_rejected_unchanged
    (dpptrf : Z -> list double -> list double * Z)
    (this : FunctionMinimum) (covar : PackedCovariance) :
  (1 <= length (_where this))%nat ->
  Z.of_nat (length (_where this)) <= max_order ->
  length covar = tri (length (_where this)) ->
  snd (dpptrf (Z.of_nat (length (_where this))) covar) <> 0 ->
  updateCovariance dpptrf covar false this = Returns false this.
Proof.
  intros Hone Hn Hlen Hinfo.
  rewrite (full_shape_outcome dpptrf this covar Hone Hn Hlen).
  unfold factor_of. apply Z.eqb_neq in Hinfo. rewrite Hinfo. reflexivity.
Qed.

Lemma updateCovariance_rejected_unchanged_witness :
  (1 <= length (_where origin2))%nat /\
  Z.of_nat (length (_where origin2)) <= max_order /\
  length [d 1; d 2; d 1] = tri (length (_where origin2)) /\
  snd (Lapack.dpptrf (Z.of_nat (length (_where origin2))) [d 1; d 2; d 1]) <> 0 /\
  updateCovariance Lapack.dpptrf [d 1; d 2; d 1] false origin2
  = Returns false origin2.
Proof.
  assert (H0 : (1 <= length (_where origin2))%nat) by (cbn; lia).
  assert (H1 : Z.of_nat (length (_where origin2)) <= max_order)
    by (vm_compute; discriminate).
  assert (H2 : length [d 1; d 2; d 1] = tri (length (_where origin2)))
    by reflexivity.
  assert (H3 : snd (Lapack.dpptrf (Z.of_nat (length (_where origin2)))
                      [d 1; d 2; d 1]) <> 0)
    by (vm_compute; discriminate).
  split; [exact H0|]. split; [exact H1|]. split; [exact H2|]. split; [exact H3|].
  exact (updateCovariance_rejected_unchanged Lapack.dpptrf origin2 [d 1; d 2; d 1]
           H0 H1 H2 H3).
Defined.

(** C2, as stated, fails on a matrix that is not positive definite and
    whose factorisation in [double] arithmetic completes.  The symmetric
    matrix with rows [(2, 2)] and [(2, 2 - 2^-52)] has the determinant
    [-2^-51], and its quadratic form is negative at [(1, -1)]; the
    reference [dpptrf] takes the root [r] of [2], divides [2] by it,
    rounds the square of the quotient down to [2 - 2^-51], finds the
    second pivot [2^-52] greater than zero and reports the status zero:
    the covariance and the factor are stored and [false] is not
    returned.  A covariance that holds a NaN is stored likewise, a NaN
    being not less than or equal to zero. *)
Lemma updateCovariance_indefinite_accepted :
  length [d 2; d 2; two_less] = tri (length (_where origin2)) /\
  quadratic_form [d 2; d 2; two_less] [1; -1] = Some (- 2 ^ 1022) /\
  not_positive_definite [d 2; d 2; two_less] 2 /\
  snd (Lapack.dpptrf 2 [d 2; d 2; two_less]) = 0 /\
  updateCovariance Lapack.dpptrf [d 2; d 2; two_less] false origin2
  = FallsOffEnd
      (mkFunctionMinimum (d 0) [d 0; d 0] (Some [d 2; d 2; two_less])
         (Some (fst (Lapack.dpptrf 2 [d 2; d 2; two_less])))) /\
  updateCovariance Lapack.dpptrf [d 2; d 2; two_less] false origin2
  <> Returns false origin2 /\
  updateCovariance Lapack.dpptrf [nan] false origin1
  = FallsOffEnd (mkFunctionMinimum (d 0) [d 0] (Some [nan]) (Some [nan])).
Proof.
  assert (Hq : quadratic_form [d 2; d 2; two_less] [1; -1] = Some (- 2 ^ 1022))
    by (vm_compute; reflexivity).
  split; [reflexivity|]. split; [exact Hq|].
  split.
  { exists [1; -1], (- 2 ^ 1022). split; [reflexivity|].
    split; [apply Exists_cons_hd; discriminate|].
    split; [exact Hq | vm_compute; discriminate]. }
  split; [vm_compute; reflexivity|].
  assert (Hup : updateCovariance Lapack.dpptrf [d 2; d 2; two_less] false origin2
                = FallsOffEnd
                    (mkFunctionMinimum (d 0) [d 0; d 0] (Some [d 2; d 2; two_less])
                       (Some (fst (Lapack.dpptrf 2 [d 2; d 2; two_less])))))
    by (vm_compute; reflexivity).
  split; [exact Hup|]. split; [rewrite Hup; discriminate|].
  vm_compute. reflexivity.
Qed.

(** The rejected covariance of the specification. *)
Example rejected_1_2_1 :
  updateCovariance Lapack.dpptrf [d 1; d 2; d 1] false origin2
  = Returns false origin2.
Proof. vm_compute. reflexivity. Qed.

(** ** updateCovariance, error-only shape *)




(** The error-only scenario of the specification: errors [2] and [3]. *)
Example errors_2_3 :
  exists this',
    updateCovariance Lapack.dpptrf [d 2; d 3] true origin2 = FallsOffEnd this' /\
    _covar this' = Some [d 4; d 0; d 9] /\
    getErrors this' = Normal [d 2; d 3].
Proof.
  eexists. split; [vm_compute; reflexivity|].
  split; [reflexivity | vm_compute; reflexivity].
Qed.

(** ** getErrors, and a missing covariance *)

(** The guard of [getErrors] and the substitution for negative elements
    differ on no number but the zero of negative sign. *)
Lemma error_of_claimed (sigsq : double) :
  sigsq <> S754_nan -> sigsq <> S754_zero true ->
  error_of sigsq = error_claimed sigsq.
Proof.
  intros Hnan Hz. destruct sigsq as [[]|[]| |[] m e]; try reflexivity; congruence.
Qed.

(** C6, as amended. [getErrors] and [setRandomParameters] throw their
    missing-covariance error when no covariance is present and throw
    nothing when one is; with a covariance of the packed length for the
    [n] parameters, [getErrors] returns [n] entries, the [i]-th being the
    square root of the [i]-th diagonal element when that element is
    greater than zero, and zero when it is not: negative, a zero of
    either sign, or not a number. *)
Theorem missing_covariance_and_errors (Random : Type)
    (getNormal : Random -> double * Random) (this : FunctionMinimum) :
  (haveCovariance this = false ->
     getErrors this
     = Throw "FunctionMinimum::getErrors: no covariance matrix available." /\
     forall dst rng,
       setRandomParameters Random getNormal dst this rng
       = Throw "FunctionMinimum::getRandomParameters: no covariance matrix available.") /\
  (forall what, getErrors this = Throw what -> haveCovariance this = false) /\
  (forall dst rng what,
     setRandomParameters Random getNormal dst this rng = Throw what ->
     haveCovariance this = false) /\
  (forall c,
     _covar this = Some c ->
     Z.of_nat (length (_where this)) <= max_diag_order ->
     length c = tri (length (_where this)) ->
     exists errors,
       getErrors this = Normal errors /\
       length errors = length (_where this) /\
       forall i, (i < length (_where this))%nat ->
         exists sigsq,
           c !! diag i = Some sigsq /\
           errors !! i
           = Some (if Double.ltb Double.zero sigsq then Double.sqrt sigsq
                   else Double.zero)).
Proof.
  split; [|split; [|split]].
  - intros Hno. unfold getErrors, setRandomParameters. rewrite Hno. auto.
  - apply getErrors_throws.
  - apply setRandomParameters_throws.
  - intros c Hc Hn Hlen.
    rewrite (getErrors_spec this c Hc Hn) by lia.
    eexists. split; [reflexivity|].
    split; [rewrite length_map, length_seq; reflexivity|].
    intros i Hi.
    destruct (lookup_lt_is_Some_2 c (diag i)) as [sigsq Hs].
    { rewrite Hlen. apply diag_lt_tri. exact Hi. }
    exists sigsq. split; [exact Hs|].
    rewrite list_lookup_fmap, lookup_seq_lt by exact Hi.
    change (Some (error_of (vec_at c (diag i))) = Some (error_of sigsq)).
    unfold vec_at. rewrite Hs. reflexivity.
Qed.

Lemma missing_covariance_and_errors_witness :
  (haveCovariance origin1 = false /\
   getErrors origin1
   = Throw "FunctionMinimum::getErrors: no covariance matrix available.") /\
  _covar at_10_20 = Some [d 4; d 0; d 9] /\
  Z.of_nat (length (_where at_10_20)) <= max_diag_order /\
  length [d 4; d 0; d 9] = tri (length (_where at_10_20)) /\
  exists errors,
    getErrors at_10_20 = Normal errors /\
    length errors = length (_where at_10_20) /\
    forall i, (i < length (_where at_10_20))%nat ->
      exists sigsq,
        [d 4; d 0; d 9] !! diag i = Some sigsq /\
        errors !! i
        = Some (if Double.ltb Double.zero sigsq then Double.sqrt sigsq
                else Double.zero).
Proof.
  assert (H0 : haveCovariance origin1 = false) by reflexivity.
  assert (H1 : _covar at_10_20 = Some [d 4; d 0; d 9]) by reflexivity.
  assert (H2 : Z.of_nat (length (_where at_10_20)) <= max_diag_order)
    by (vm_compute; discriminate).
  assert (H3 : length [d 4; d 0; d 9] = tri (length (_where at_10_20)))
    by reflexivity.
  split.
  { split; [exact H0|].
    exact (proj1 (proj1 (missing_covariance_and_errors (list double)
                           Replay.getNormal origin1) H0)). }
  split; [exact H1|]. split; [exact H2|]. split; [exact H3|].
  exact (proj2 (proj2 (proj2
           (missing_covariance_and_errors (list double) Replay.getNormal at_10_20)))
           [d 4; d 0; d 9] H1 H2 H3).
Defined.

(** C6, as stated, fails on a diagonal element that is not a number: it is
    not negative, its square root is not a number, and [getErrors] returns
    zero for it.  Such an element is stored by [updateCovariance] for an
    error that is not a number. *)
Lemma getErrors_nan_diagonal :
  exists this',
    updateCovariance Lapack.dpptrf [nan] true origin1 = FallsOffEnd this' /\
    _covar this' = Some [nan] /\
    Double.ltb nan Double.zero = false /\
    getErrors this' = Normal [Double.zero] /\
    getErrors this' <> Normal (map error_claimed [nan]).
Proof.
  exists (mkFunctionMinimum (d 0) [d 0] (Some [nan]) (Some [nan])).
  split; [vm_compute; reflexivity|]. split; [reflexivity|].
  split; [reflexivity|]. split; [vm_compute; reflexivity|].
  vm_compute. discriminate.
Qed.

(** ** setRandomParameters *)

(** C4, as amended. With a covariance present and the stored factor [U]
    of at least the packed length for the [n] parameters,
    [setRandomParameters] on a destination of at least [n] elements draws [g[0..n-1]] from the
    generator, sets [dst[j]] to [where[j]] plus the products
    [U[i + j*(j+1)/2] * g[i]] for [i = 0..j], added in this order, leaves
    the elements from [n] on as they were, and returns half the sum of
    the squares of the draws. *)
Theorem setRandomParameters_sample (Random : Type)
    (getNormal : Random -> double * Random) (this : FunctionMinimum)
    (U dst : list double) (rng : Random) :
  haveCovariance this = true ->
  _cholesky this = Some U ->
  Z.of_nat (length (_where this)) <= Int.max ->
  (tri (length (_where this)) <= length U)%nat ->
  (length (_where this) <= length dst)%nat ->
  let g := fst (draws Random getNormal (length (_where this)) rng) in
  exists dst',
    setRandomParameters Random getNormal dst this rng
    = Normal (half_sum_squares g, dst',
              snd (draws Random getNormal (length (_where this)) rng)) /\
    length dst' = length dst /\
    (forall j w, _where this !! j = Some w ->
       dst' !! j
       = Some (foldl (fun acc i =>
                        Double.add acc
                          (Double.mul (vec_at U (i + tri j)) (vec_at g i)))
                 w (seq 0 (Datatypes.S j)))) /\
    (forall j, (length (_where this) <= j)%nat -> dst' !! j = dst !! j).
Proof.
  intros Hc HU Hn HlenU Hdst g.
  rewrite (setRandomParameters_spec Random getNormal this U dst rng Hc HU Hn HlenU Hdst).
  fold g. eexists. split; [reflexivity|].
  assert (Hs : length (sample (_where this) U g) = length (_where this))
    by (unfold sample; apply length_imap).
  split; [|split].
  - rewrite length_app, length_drop, Hs. lia.
  - intros j w Hw. pose proof (lookup_lt_Some _ _ _ Hw) as Hj.
    rewrite lookup_app_l by (rewrite Hs; exact Hj).
    unfold sample. rewrite list_lookup_imap, Hw. reflexivity.
  - intros j Hj. rewrite lookup_app_r by (rewrite Hs; exact Hj).
    rewrite Hs, lookup_drop. f_equal. lia.
Qed.

Lemma setRandomParameters_sample_witness :
  haveCovariance at_10_20 = true /\
  _cholesky at_10_20 = Some [d 2; d 0; d 3] /\
  Z.of_nat (length (_where at_10_20)) <= Int.max /\
  (tri (length (_where at_10_20)) <= length [d 2; d 0; d 3])%nat /\
  (length (_where at_10_20) <= length [d 7; d 7])%nat /\
  (let g := fst (draws (list double) Replay.getNormal (length (_where at_10_20))
                   [d 1; d 0]) in
   exists dst',
     setRandomParameters (list double) Replay.getNormal [d 7; d 7] at_10_20 [d 1; d 0]
     = Normal (half_sum_squares g, dst',
               snd (draws (list double) Replay.getNormal
                      (length (_where at_10_20)) [d 1; d 0])) /\
     length dst' = length [d 7; d 7] /\
     (forall j w, _where at_10_20 !! j = Some w ->
        dst' !! j
        = Some (foldl (fun acc i =>
                         Double.add acc
                           (Double.mul (vec_at [d 2; d 0; d 3] (i + tri j))
                              (vec_at g i)))
                  w (seq 0 (Datatypes.S j)))) /\
     (forall j, (length (_where at_10_20) <= j)%nat ->
                dst' !! j = [d 7; d 7] !! j)).
Proof.
  assert (H1 : haveCovariance at_10_20 = true) by reflexivity.
  assert (H2 : _cholesky at_10_20 = Some [d 2; d 0; d 3]) by reflexivity.
  assert (H3 : Z.of_nat (length (_where at_10_20)) <= Int.max)
    by (vm_compute; discriminate).
  assert (H4 : (tri (length (_where at_10_20)) <= length [d 2; d 0; d 3])%nat)
    by (cbn; lia).
  assert (H5 : (length (_where at_10_20) <= length [d 7; d 7])%nat)
    by (cbn; lia).
  split; [exact H1|]. split; [exact H2|]. split; [exact H3|].
  split; [exact H4|]. split; [exact H5|].
  exact (setRandomParameters_sample (list double) Replay.getNormal at_10_20
           [d 2; d 0; d 3] [d 7; d 7] [d 1; d 0] H1 H2 H3 H4 H5).
Defined.

(** The conditions of C4 are met after a full-matrix update that is
    accepted, when the factor that [dpptrf] leaves is as long as the
    covariance: the object can then be sampled. *)
Lemma sampling_after_update
    (dpptrf : Z -> list double -> list double * Z) (Random : Type)
    (getNormal : Random -> double * Random) (this : FunctionMinimum)
    (covar dst : list double) (rng : Random) :
  (1 <= length (_where this))%nat ->
  Z.of_nat (length (_where this)) <= max_order ->
  length covar = tri (length (_where this)) ->
  snd (dpptrf (Z.of_nat (length (_where this))) covar) = 0 ->
  length (fst (dpptrf (Z.of_nat (length (_where this))) covar)) = length covar ->
  (length (_where this) <= length dst)%nat ->
  exists this',
    updateCovariance dpptrf covar false this = FallsOffEnd this' /\
    setRandomParameters Random getNormal dst this' rng
    = Normal
        (half_sum_squares (fst (draws Random getNormal (length (_where this)) rng)),
         sample (_where this) (fst (dpptrf (Z.of_nat (length (_where this))) covar))
           (fst (draws Random getNormal (length (_where this)) rng))
         ++ drop (length (_where this)) dst,
         snd (draws Random getNormal (length (_where this)) rng)).
Proof.
  intros Hone Hn Hlen Hinfo HU Hdst.
  set (U := fst (dpptrf (Z.of_nat (length (_where this))) covar)) in *.
  exists (mkFunctionMinimum (_minValue this) (_where this) (Some covar) (Some U)).
  split.
  - rewrite (full_shape_outcome dpptrf this covar Hone Hn Hlen).
    unfold factor_of. rewrite Hinfo. reflexivity.
  - apply (setRandomParameters_spec Random getNormal
             (mkFunctionMinimum (_minValue this) (_where this) (Some covar) (Some U))
             U dst rng eq_refl eq_refl); cbn [_where].
    + unfold max_order, Int.max in *. lia.
    + rewrite HU, Hlen. lia.
    + exact Hdst.
Qed.

(** C4, as stated, fails on objects that have a covariance and on which
    the call has no defined behaviour.  The error [2^-600] for one
    parameter leaves the covariance [[0]] present and the factor null,
    and the call dereferences the null factor; a destination shorter
    than the parameters is written past its end; and after
    [updateParameters] to three parameters the factor stored for two is
    read past its end. *)
Lemma sampling_without_factor :
  updateCovariance Lapack.dpptrf [tiny] true origin1
  = FallsOffEnd (mkFunctionMinimum (d 0) [d 0] (Some [Double.zero]) None) /\
  haveCovariance (mkFunctionMinimum (d 0) [d 0] (Some [Double.zero]) None) = true /\
  setRandomParameters (list double) Replay.getNormal [d 0]
    (mkFunctionMinimum (d 0) [d 0] (Some [Double.zero]) None) [d 1]
  = Undefined /\
  haveCovariance at_10_20 = true /\
  setRandomParameters (list double) Replay.getNormal [d 0] at_10_20 [d 1; d 0]
  = Undefined /\
  haveCovariance (updateParameters [d 1; d 2; d 3] (d 0) at_10_20) = true /\
  setRandomParameters (list double) Replay.getNormal [d 0; d 0; d 0]
    (updateParameters [d 1; d 2; d 3] (d 0) at_10_20) [d 1; d 0; d 0]
  = Undefined.
Proof.
  split; [vm_compute; reflexivity|]. split; [reflexivity|].
  split; [vm_compute; reflexivity|]. split; [reflexivity|].
  split; [vm_compute; reflexivity|]. split; [reflexivity|].
  vm_compute. reflexivity.
Qed.

(** C10, as amended. With a covariance present and the stored factor of
    at least the packed length for the [n] parameters, two calls of
    [setRandomParameters] on the same object from the same generator
    state, with any two destinations of at least [n] elements, return the
    same weight and the same first [n] elements, and leave the generator
    in the same state: the one reached by [n] draws, whose values, in the
    order drawn, are the ones the factor is multiplied with. *)
Theorem setRandomParameters_ignores_dst (Random : Type)
    (getNormal : Random -> double * Random) (this : FunctionMinimum)
    (U dst1 dst2 : list double) (rng : Random) :
  haveCovariance this = true ->
  _cholesky this = Some U ->
  Z.of_nat (length (_where this)) <= Int.max ->
  (tri (length (_where this)) <= length U)%nat ->
  (length (_where this) <= length dst1)%nat ->
  (length (_where this) <= length dst2)%nat ->
  let n := length (_where this) in
  exists weight out1 out2 rng',
    setRandomParameters Random getNormal dst1 this rng = Normal (weight, out1, rng') /\
    setRandomParameters Random getNormal dst2 this rng = Normal (weight, out2, rng') /\
    take n out1 = take n out2 /\
    take n out1 = sample (_where this) U (fst (draws Random getNormal n rng)) /\
    weight = half_sum_squares (fst (draws Random getNormal n rng)) /\
    length (fst (draws Random getNormal n rng)) = n /\
    rng' = snd (draws Random getNormal n rng).
Proof.
  intros Hc HU Hn HlenU Hd1 Hd2 n.
  rewrite (setRandomParameters_spec Random getNormal this U dst1 rng Hc HU Hn HlenU Hd1).
  rewrite (setRandomParameters_spec Random getNormal this U dst2 rng Hc HU Hn HlenU Hd2).
  fold n.
  assert (Hs : length (sample (_where this) U (fst (draws Random getNormal n rng))) = n)
    by (unfold sample; apply length_imap).
  do 4 eexists. split; [reflexivity|]. split; [reflexivity|].
  rewrite !take_app_length' by (symmetry; exact Hs).
  split; [reflexivity|]. split; [reflexivity|]. split; [reflexivity|].
  split; [apply draws_length | reflexivity].
Qed.

Lemma setRandomParameters_ignores_dst_witness :
  haveCovariance at_10_20 = true /\
  _cholesky at_10_20 = Some [d 2; d 0; d 3] /\
  Z.of_nat (length (_where at_10_20)) <= Int.max /\
  (tri (length (_where at_10_20)) <= length [d 2; d 0; d 3])%nat /\
  (length (_where at_10_20) <= length [d 7; d 7])%nat /\
  (length (_where at_10_20) <= length [nan; huge; tiny])%nat /\
  (let n := length (_where at_10_20) in
   exists weight out1 out2 rng',
     setRandomParameters (list double) Replay.getNormal [d 7; d 7] at_10_20 [d 1; d 0]
     = Normal (weight, out1, rng') /\
     setRandomParameters (list double) Replay.getNormal [nan; huge; tiny] at_10_20
       [d 1; d 0]
     = Normal (weight, out2, rng') /\
     take n out1 = take n out2 /\
     take n out1
     = sample (_where at_10_20) [d 2; d 0; d 3]
         (fst (draws (list double) Replay.getNormal n [d 1; d 0])) /\
     weight = half_sum_squares (fst (draws (list double) Replay.getNormal n [d 1; d 0])) /\
     length (fst (draws (list double) Replay.getNormal n [d 1; d 0])) = n /\
     rng' = snd (draws (list double) Replay.getNormal n [d 1; d 0])).
Proof.
  assert (H1 : haveCovariance at_10_20 = true) by reflexivity.
  assert (H2 : _cholesky at_10_20 = Some [d 2; d 0; d 3]) by reflexivity.
  assert (H3 : Z.of_nat (length (_where at_10_20)) <= Int.max)
    by (vm_compute; discriminate).
  assert (H4 : (tri (length (_where at_10_20)) <= length [d 2; d 0; d 3])%nat)
    by (cbn; lia).
  assert (H5 : (length (_where at_10_20) <= length [d 7; d 7])%nat)
    by (cbn; lia).
  assert (H6 : (length (_where at_10_20) <= length [nan; huge; tiny])%nat)
    by (cbn; lia).
  split; [exact H1|]. split; [exact H2|]. split; [exact H3|].
  split; [exact H4|]. split; [exact H5|]. split; [exact H6|].
  exact (setRandomParameters_ignores_dst (list double) Replay.getNormal at_10_20
           [d 2; d 0; d 3] [d 7; d 7] [nan; huge; tiny] [d 1; d 0]
           H1 H2 H3 H4 H5 H6).
Defined.

(** C10, as stated, fails on a state without a covariance: with one
    parameter and a destination of one element the call throws before
    it draws, so that no value of the generator is consumed, not one; and
    on the state with a covariance and a null factor that the error
    [2^-600] leaves, the call has no defined behaviour, whatever the
    destination. *)
Lemma nothing_drawn_without_covariance :
  length (_where origin1) = 1%nat /\
  (length (_where origin1) <= length [d 7])%nat /\
  haveCovariance origin1 = false /\
  setRandomParameters (list double) Replay.getNormal [d 7] origin1 [d 1]
  = Throw "FunctionMinimum::getRandomParameters: no covariance matrix available." /\
  updateCovariance Lapack.dpptrf [tiny] true origin1
  = FallsOffEnd (mkFunctionMinimum (d 0) [d 0] (Some [Double.zero]) None) /\
  setRandomParameters (list double) Replay.getNormal [d 7]
    (mkFunctionMinimum (d 0) [d 0] (Some [Double.zero]) None) [d 1]
  = Undefined /\
  setRandomParameters (list double) Replay.getNormal [nan; huge]
    (mkFunctionMinimum (d 0) [d 0] (Some [Double.zero]) None) [d 1]
  = Undefined.
Proof.
  split; [reflexivity|]. split; [cbn; lia|]. split; [reflexivity|].
  split; [reflexivity|]. split; [vm_compute; reflexivity|].
  split; vm_compute; reflexivity.
Qed.

(** The deterministic draw of the specification: normals [1, 0] around
    [(10, 20)] give [(12, 20)] and the weight one half. *)
Example sample_at_10_20 :
  setRandomParameters (list double) Replay.getNormal [d 0; d 0] at_10_20 [d 1; d 0]
  = Normal (Double.half, [d 12; d 20], []).
Proof. vm_compute. reflexivity. Qed.

(** ** The invariant *)

Lemma invariant_constructed (minValue : double) (where_ : Parameters) :
  invariant (FunctionMinimum_ minValue where_).
Proof. exact I. Qed.

Lemma invariant_updateParameters (params : Parameters) (fval : double)
    (this : FunctionMinimum) :
  invariant this -> invariant (updateParameters params fval this).
Proof. unfold invariant, updateParameters. cbn. auto. Qed.

Lemma invariant_updateCovariance_full
    (dpptrf : Z -> list double -> list double * Z)
    (this : FunctionMinimum) (covar : PackedCovariance) :
  (1 <= length (_where this))%nat ->
  Z.of_nat (length (_where this)) <= max_order ->
  length covar = tri (length (_where this)) ->
  (snd (dpptrf (Z.of_nat (length (_where this))) covar) = 0 ->
   positive_diagonal (fst (dpptrf (Z.of_nat (length (_where this))) covar))) ->
  invariant this ->
  match updateCovariance dpptrf covar false this with
  | Returns _ this' | Throws _ this' | FallsOffEnd this' => invariant this'
  | UndefinedBehaviour => False
  end.
Proof.
  intros Hone Hn Hlen Hpos Hinv.
  rewrite (full_shape_outcome dpptrf this covar Hone Hn Hlen). unfold factor_of.
  destruct (Z.eqb_spec (snd (dpptrf (Z.of_nat (length (_where this))) covar)) 0)
    as [H0 | Hne]; [|exact Hinv].
  unfold invariant. cbn. exact (Hpos H0).
Qed.

(** The error-only shape stores the covariance before it factors it and
    does not test the factor: with any Cholesky primitive that rejects the
    one by one matrix [[0]], the error [2^-600] leaves the covariance
    present and the factor null. *)
Lemma errors_shape_unfactored
    (dpptrf : Z -> list double -> list double * Z) :
  snd (dpptrf 1 [Double.zero]) <> 0 ->
  updateCovariance dpptrf [tiny] true origin1
  = FallsOffEnd (mkFunctionMinimum (d 0) [d 0] (Some [Double.zero]) None).
Proof.
  intros Hinfo.
  destruct (errors_shape_outcome dpptrf origin1 [tiny])
    as (c & (Hlen & Hdiag & _) & Hup);
    [cbn; lia | vm_compute; discriminate | reflexivity | repeat constructor |].
  assert (Hc : c = [Double.zero]).
  { destruct c as [|x [|y c]]; try discriminate.
    specialize (Hdiag 0%nat tiny eq_refl). cbn in Hdiag.
    injection Hdiag as ->. reflexivity. }
  subst c. rewrite Hup. unfold factor_of. cbn [origin1 FunctionMinimum_ _where length].
  change (Z.of_nat 1) with 1.
  apply Z.eqb_neq in Hinfo. rewrite Hinfo. reflexivity.
Qed.

(** C5. The error [2^-600] is greater than zero and its square underflows
    to zero; [updateCovariance] with it as the only error stores the
    covariance [[0]], for which [dpptrf] reports a non-positive pivot, and
    stores the null factor: the covariance is present without a factor,
    and [setRandomParameters] on this object dereferences the null
    factor. *)
Theorem errors_only_update_breaks_invariant :
  invariant origin1 /\
  Double.ltb Double.zero tiny = true /\
  Double.mul tiny tiny = Double.zero /\
  snd (Lapack.dpptrf 1 [Double.zero]) = 1 /\
  exists this',
    updateCovariance Lapack.dpptrf [tiny] true origin1 = FallsOffEnd this' /\
    _covar this' = Some [Double.zero] /\
    _cholesky this' = None /\
    ~ invariant this' /\
    haveCovariance this' = true /\
    setRandomParameters (list double) Replay.getNormal [d 0] this' [d 1] = Undefined.
Proof.
  assert (Hinfo : snd (Lapack.dpptrf 1 [Double.zero]) = 1)
    by (vm_compute; reflexivity).
  split; [exact I|]. split; [reflexivity|].
  split; [vm_compute; reflexivity|]. split; [exact Hinfo|].
  eexists. split.
  - apply errors_shape_unfactored. rewrite Hinfo. discriminate.
  - split; [reflexivity|]. split; [reflexivity|].
    split; [intros H; exact H|]. split; [reflexivity|].
    vm_compute. reflexivity.
Qed.

(** * Further properties of the code *)

(** ** Fit parameters: fixing and releasing *)

Lemma opp_involutive (x : double) : Double.opp (Double.opp x) = x.
Proof. destruct x as [s|s| |s m e]; cbn; rewrite ?negb_involutive; reflexivity. Qed.

Lemma opp_positive (x : double) :
  Double.ltb Double.zero x = true ->
  Double.ltb (Double.opp x) Double.zero = true /\
  Double.ltb Double.zero (Double.opp x) = false.
Proof. destruct x as [s|s| |s m e]; try destruct s; cbn; auto; congruence. Qed.

Lemma opp_negative (x : double) :
  Double.ltb x Double.zero = true ->
  Double.ltb Double.zero (Double.opp x) = true /\
  Double.ltb (Double.opp x) Double.zero = false.
Proof. destruct x as [s|s| |s m e]; try destruct s; cbn; auto; congruence. Qed.

Lemma not_both_signs (x : double) :
  Double.ltb Double.zero x = true -> Double.ltb x Double.zero = false.
Proof. destruct x as [s|s| |s m e]; try destruct s; cbn; auto; congruence. Qed.

(** X1. Whatever the error of a parameter is, a number of either sign,
    a zero, an infinity or a NaN, the parameter is not floating after
    [fix()], and [fix()] touches neither its name nor its value. *)
Theorem fix_never_floating (p : FitParameter) :
  FitParameter.isFloating (FitParameter.fix_ p) = false /\
  FitParameter.getName (FitParameter.fix_ p) = FitParameter.getName p /\
  FitParameter.getValue (FitParameter.fix_ p) = FitParameter.getValue p.
Proof.
  destruct p as [name value error].
  unfold FitParameter.isFloating, FitParameter.fix_, FitParameter.getName,
    FitParameter.getValue. cbn [_error _name _value].
  destruct (Double.ltb Double.zero error) eqn:He; cbn [_error _name _value].
  - destruct (opp_positive error He) as [_ H]. auto.
  - auto.
Qed.

(** X2. [fix()] and [release()] absorb each other and themselves: fixing
    and then releasing is releasing, releasing and then fixing is fixing,
    and doing either twice is doing it once. *)
Theorem fix_release_absorb (p : FitParameter) :
  FitParameter.release (FitParameter.fix_ p) = FitParameter.release p /\
  FitParameter.fix_ (FitParameter.release p) = FitParameter.fix_ p /\
  FitParameter.fix_ (FitParameter.fix_ p) = FitParameter.fix_ p /\
  FitParameter.release (FitParameter.release p) = FitParameter.release p.
Proof.
  destruct p as [name value error].
  unfold FitParameter.release, FitParameter.fix_. cbn [_error _name _value].
  destruct (Double.ltb Double.zero error) eqn:Hpos;
    destruct (Double.ltb error Double.zero) eqn:Hneg;
    cbn [_error _name _value]; rewrite ?Hpos, ?Hneg; cbn [_error _name _value].
  - rewrite (not_both_signs error Hpos) in Hneg. discriminate.
  - destruct (opp_positive error Hpos) as [H1 H2]. rewrite H1, H2.
    cbn [_error _name _value]. rewrite opp_involutive. auto.
  - destruct (opp_negative error Hneg) as [H1 H2]. rewrite H1, H2.
    cbn [_error _name _value]. rewrite opp_involutive. auto.
  - auto.
Qed.

(** X3. After [release()] a parameter is floating exactly when its error
    was greater or less than zero.  *)
Theorem release_floating_iff (p : FitParameter) :
  FitParameter.isFloating (FitParameter.release p)
  = (Double.ltb Double.zero (FitParameter.getError p)
     || Double.ltb (FitParameter.getError p) Double.zero).
Proof.
  destruct p as [name value error].
  unfold FitParameter.isFloating, FitParameter.release, FitParameter.getError.
  cbn [_error _name _value].
  destruct (Double.ltb error Double.zero) eqn:Hneg; cbn [_error].
  - destruct (opp_negative error Hneg) as [H1 _]. rewrite H1.
    symmetry. apply orb_true_r.
  - rewrite orb_false_r. reflexivity.
Qed.

(** X4. A parameter whose error is neither greater nor less than zero, a
    zero or a NaN, is left as it is by [fix()] and by [release()], and no
    sequence of the two makes it floating. *)
Theorem fixed_for_good (p : FitParameter) :
  Double.ltb Double.zero (FitParameter.getError p) = false ->
  Double.ltb (FitParameter.getError p) Double.zero = false ->
  FitParameter.fix_ p = p /\ FitParameter.release p = p /\
  FitParameter.isFloating p = false.
Proof.
  unfold FitParameter.isFloating, FitParameter.release, FitParameter.fix_,
    FitParameter.getError.
  intros H1 H2. rewrite H1, H2. auto.
Qed.

Lemma fixed_for_good_witness :
  Double.ltb Double.zero
    (FitParameter.getError (mkFitParameter "m" three_halves Double.zero)) = false /\
  Double.ltb (FitParameter.getError (mkFitParameter "m" three_halves Double.zero))
    Double.zero = false /\
  FitParameter.fix_ (mkFitParameter "m" three_halves Double.zero)
  = mkFitParameter "m" three_halves Double.zero /\
  FitParameter.release (mkFitParameter "m" three_halves Double.zero)
  = mkFitParameter "m" three_halves Double.zero /\
  FitParameter.isFloating (mkFitParameter "m" three_halves Double.zero) = false.
Proof.
  split; [reflexivity|]. split; [reflexivity|].
  exact (fixed_for_good (mkFitParameter "m" three_halves Double.zero)
           eq_refl eq_refl).
Defined.

(** ** updateCovariance: what is checked before anything is stored *)

(** X5. A vector of the wrong length makes [updateCovariance] throw, in
    either shape, with the object as it was: the errors must be as many
    as the parameters, the packed covariance [n*(n+1)/2] long. *)
Theorem updateCovariance_size_mismatch
    (dpptrf : Z -> list double -> list double * Z)
    (this : FunctionMinimum) (covar : PackedCovariance) (errorsOnly : bool) :
  Z.of_nat (length (_where this)) <= max_diag_order ->
  length covar <> (if errorsOnly then length (_where this)
                   else tri (length (_where this))) ->
  updateCovariance dpptrf covar errorsOnly this
  = Throws
      (if errorsOnly
       then "FunctionMinimum: parameter and error vectors have incompatible sizes."
       else "FunctionMinimum: parameter and covariance vectors have incompatible sizes.")
      this.
Proof.
  intros Hn Hlen. unfold updateCovariance.
  destruct (sizes_in_range (length (_where this)) Hn) as (H1 & H2 & H3 & H4).
  rewrite H1. cbn [lift]. rewrite H2. cbn [lift]. rewrite H3. cbn [lift].
  rewrite H4.
  destruct errorsOnly.
  - destruct (Z.eqb_spec (Z.of_nat (length covar)) (Z.of_nat (length (_where this))))
      as [E | E]; [lia | reflexivity].
  - destruct (Z.eqb_spec (Z.of_nat (length covar))
                (Z.of_nat (tri (length (_where this))))) as [E | E];
      [lia | reflexivity].
Qed.

Lemma updateCovariance_size_mismatch_witness :
  Z.of_nat (length (_where origin2)) <= max_diag_order /\
  length [d 4; d 1] <> tri (length (_where origin2)) /\
  updateCovariance Lapack.dpptrf [d 4; d 1] false origin2
  = Throws "FunctionMinimum: parameter and covariance vectors have incompatible sizes."
      origin2.
Proof.
  assert (H1 : Z.of_nat (length (_where origin2)) <= max_diag_order)
    by (vm_compute; congruence).
  assert (H2 : length [d 4; d 1] <> tri (length (_where origin2)))
    by (cbn; lia).
  split; [exact H1|]. split; [exact H2|].
  exact (updateCovariance_size_mismatch Lapack.dpptrf origin2 [d 4; d 1] false
           H1 H2).
Defined.

Lemma some_not_positive (e : list double) :
  Exists (fun x => Double.leb x Double.zero = true) e ->
  existsb (fun x => Double.leb x Double.zero) e = true.
Proof.
  induction 1 as [x e Hx | x e _ IH]; cbn [existsb].
  - rewrite Hx. reflexivity.
  - rewrite IH. apply orb_true_r.
Qed.

(** X6. A vector of errors of the right length one of which is less than
    or equal to zero makes [updateCovariance] return [false] with the
    object as it was, and makes the constructor that takes a covariance
    throw. *)
Theorem updateCovariance_error_not_positive
    (dpptrf : Z -> list double -> list double * Z)
    (this : FunctionMinimum) (e : PackedCovariance) :
  Z.of_nat (length (_where this)) <= max_diag_order ->
  length e = length (_where this) ->
  Exists (fun x => Double.leb x Double.zero = true) e ->
  updateCovariance dpptrf e true this = Returns false this /\
  FunctionMinimum_covar dpptrf (_minValue this) (_where this) e true
  = Throw "FunctionMinimum: covariance is not positive definite.".
Proof.
  intros Hn Hlen Hex.
  assert (H : forall this0, _where this0 = _where this ->
            updateCovariance dpptrf e true this0 = Returns false this0).
  { intros this0 Hw. unfold updateCovariance. rewrite Hw.
    destruct (sizes_in_range (length (_where this)) Hn) as (H1 & H2 & H3 & H4).
    rewrite H1. cbn [lift]. rewrite H2. cbn [lift]. rewrite H3. cbn [lift].
    rewrite Hlen, Z.eqb_refl. cbn [negb].
    rewrite (some_not_positive e Hex). reflexivity. }
  split; [apply H; reflexivity|].
  unfold FunctionMinimum_covar. rewrite H by reflexivity. reflexivity.
Qed.

Lemma updateCovariance_error_not_positive_witness :
  Z.of_nat (length (_where origin2)) <= max_diag_order /\
  length [d 2; d 0] = length (_where origin2) /\
  Exists (fun x => Double.leb x Double.zero = true) [d 2; d 0] /\
  updateCovariance Lapack.dpptrf [d 2; d 0] true origin2 = Returns false origin2 /\
  FunctionMinimum_covar Lapack.dpptrf (_minValue origin2) (_where origin2)
    [d 2; d 0] true
  = Throw "FunctionMinimum: covariance is not positive definite.".
Proof.
  assert (H1 : Z.of_nat (length (_where origin2)) <= max_diag_order)
    by (vm_compute; congruence).
  assert (H2 : length [d 2; d 0] = length (_where origin2)) by reflexivity.
  assert (H3 : Exists (fun x => Double.leb x Double.zero = true) [d 2; d 0])
    by (apply Exists_cons_tl, Exists_cons_hd; reflexivity).
  split; [exact H1|]. split; [exact H2|]. split; [exact H3|].
  exact (updateCovariance_error_not_positive Lapack.dpptrf origin2 [d 2; d 0]
           H1 H2 H3).
Defined.

(** No path of [updateCovariance] returns [true]. *)
Lemma updateCovariance_never_true
    (dpptrf : Z -> list double -> list double * Z)
    (this this' : FunctionMinimum) (covar : PackedCovariance) (errorsOnly : bool) :
  updateCovariance dpptrf covar errorsOnly this <> Returns true this'.
Proof.
  unfold updateCovariance, lift.
  repeat match goal with
         | |- context [match ?x with _ => _ end] => destruct x
         end; congruence.
Qed.

(** X7. The constructor that takes a covariance never completes with an
    object: it throws, or its behaviour is undefined, since it tests what
    [updateCovariance] returns and no path of [updateCovariance] returns
    [true]. *)
Theorem FunctionMinimum_covar_never_completes
    (dpptrf : Z -> list double -> list double * Z)
    (minValue : double) (where_ : Parameters) (covar : PackedCovariance)
    (errorsOnly : bool) (this : FunctionMinimum) :
  FunctionMinimum_covar dpptrf minValue where_ covar errorsOnly <> Normal this.
Proof.
  unfold FunctionMinimum_covar.
  pose proof (updateCovariance_never_true dpptrf
                (FunctionMinimum_ minValue where_)) as H.
  destruct (updateCovariance dpptrf covar errorsOnly
              (FunctionMinimum_ minValue where_)) as [[|] this0 | | |] eqn:E;
    try congruence.
  exfalso. exact (H this0 covar errorsOnly E).
Qed.

(** ** Loops that stop *)

(** What holds before a loop and is kept by every step that completes
    holds after the loop, when it completes. *)
Lemma for_loop_invariant {S : Type} (P : S -> Prop) (body : nat -> S -> result S)
    (n i0 : nat) (s s' : S) :
  P s ->
  (forall i t t', body i t = Normal t' -> P t -> P t') ->
  for_loop n i0 body s = Normal s' -> P s'.
Proof.
  intros H0 Hstep. revert i0 s H0.
  induction n as [|n IH]; intros i0 s H0; cbn [for_loop].
  - intros [= <-]. exact H0.
  - destruct (body i0 s) as [t | what |] eqn:Hb; cbn [bind]; try discriminate.
    apply IH. exact (Hstep i0 s t Hb H0).
Qed.

(** A loop whose step [k] has no defined behaviour, the steps before it
    completing, has none. *)
Lemma for_loop_undefined {S : Type} (P : nat -> S -> Prop)
    (body : nat -> S -> result S) (n i0 k : nat) (s : S) :
  (i0 <= k < i0 + n)%nat ->
  P i0 s ->
  (forall i t, (i0 <= i < k)%nat -> P i t ->
               exists t', body i t = Normal t' /\ P (Datatypes.S i) t') ->
  (forall t, P k t -> body k t = Undefined) ->
  for_loop n i0 body s = Undefined.
Proof.
  revert i0 s. induction n as [|n IH]; intros i0 s Hk H0 Hstep Hbad; [lia|].
  cbn [for_loop]. destruct (decide (i0 = k)) as [-> | Hne].
  - rewrite (Hbad s H0). reflexivity.
  - destruct (Hstep i0 s ltac:(lia) H0) as (t & Hb & Ht).
    rewrite Hb. cbn [bind]. apply (IH (Datatypes.S i0) t); auto; [lia|].
    intros i u Hi Hu. apply Hstep; [lia | exact Hu].
Qed.

(** ** Signs

    Rounding a mantissa that is not negative, with the positive sign,
    gives a zero of positive sign, a positive number or positive
    infinity. *)

Lemma binary_round_aux_plus (m e : Z) (l : location) :
  0 <= m ->
  sign_plus (binary_round_aux Double.prec Double.emax false m e l) = true.
Proof.
  intros Hm. unfold binary_round_aux.
  pose proof (shr_fexp_nonneg m e l Hm) as H1.
  destruct (shr_fexp Double.prec Double.emax m e l) as [mrs' e'].
  cbn [fst] in H1.
  pose proof (round_nearest_even_bounds (shr_m mrs') (loc_of_shr_record mrs')) as Hr.
  pose proof (shr_fexp_nonneg
                (round_nearest_even (shr_m mrs') (loc_of_shr_record mrs')) e'
                loc_Exact ltac:(lia)) as H2.
  destruct (shr_fexp Double.prec Double.emax
              (round_nearest_even (shr_m mrs') (loc_of_shr_record mrs')) e' loc_Exact)
    as [mrs'' e''].
  cbn [fst] in H2.
  destruct (shr_m mrs'') as [|p|p]; [reflexivity | | lia].
  destruct (e'' <=? Double.emax - Double.prec); reflexivity.
Qed.

Lemma sign_plus_nonneg (x : double) :
  sign_plus x = true -> Double.leb Double.zero x = true.
Proof. destruct x as [[]|[]| |[] m e]; cbn; congruence. Qed.

Lemma sqrt_plus (x : double) :
  Double.ltb Double.zero x = true -> sign_plus (Double.sqrt x) = true.
Proof.
  destruct x as [s|s| |s m e]; try destruct s; cbn; try congruence.
  intros _. unfold Double.sqrt, SFsqrt.
  destruct (SFsqrt_core_binary Double.prec Double.emax (Zpos m) e)
    as [[mz ez] lz] eqn:E.
  apply binary_round_aux_plus.
  unfold SFsqrt_core_binary in E. cbv zeta in E.
  match type of E with
  | (let (q, r) := Z.sqrtrem ?a in _) = _ =>
      pose proof (Z.sqrtrem_sqrt a) as Hq; pose proof (Z.sqrt_nonneg a) as Hs;
      destruct (Z.sqrtrem a) as [q r]
  end.
  cbn [fst] in Hq. injection E as <- _ _. lia.
Qed.

Lemma error_of_nonneg (sigsq : double) :
  Double.leb Double.zero (error_of sigsq) = true.
Proof.
  unfold error_of. destruct (Double.ltb Double.zero sigsq) eqn:H.
  - apply sign_plus_nonneg, sqrt_plus, H.
  - reflexivity.
Qed.

Lemma square_plus (g : double) :
  is_nan g = false -> sign_plus (Double.mul g g) = true.
Proof.
  destruct g as [[]|[]| |s m e]; cbn; try congruence. intros _.
  unfold Double.mul, SFmul. rewrite xorb_nilpotent.
  apply binary_round_aux_plus. lia.
Qed.

Lemma add_plus (a b : double) :
  sign_plus a = true -> sign_plus b = true -> sign_plus (Double.add a b) = true.
Proof.
  destruct a as [[]|[]| |[] ma ea], b as [[]|[]| |[] mb eb]; cbn;
    try congruence. intros _ _.
  unfold Double.add, SFadd, cond_Zopp, binary_normalize.
  match goal with
  | |- context [Zpos ?p + Zpos ?q] => change (Zpos p + Zpos q) with (Zpos (p + q))
  end.
  unfold binary_round.
  match goal with
  | |- context [shl_align ?p ?x ?y] => destruct (shl_align p x y) as [mz ez]
  end.
  apply binary_round_aux_plus. lia.
Qed.

Lemma halve_plus (a : double) :
  sign_plus a = true -> sign_plus (Double.div a (Double.of_int 2)) = true.
Proof.
  change (Double.of_int 2) with (S754_finite false 4503599627370496 (-51)).
  destruct a as [[]|[]| |[] m e]; cbn; try congruence. intros _.
  unfold Double.div, SFdiv. cbn [xorb].
  destruct (SFdiv_core_binary Double.prec Double.emax (Zpos m) e
              4503599627370496 (-51)) as [[mz ez] lz] eqn:E.
  apply binary_round_aux_plus.
  unfold SFdiv_core_binary in E. cbv zeta in E.
  match type of E with
  | (let '(q, r) := Z.div_eucl ?a ?b in _) = _ =>
      assert (Ha : 0 <= a);
      [| pose proof (Z.div_pos a b Ha ltac:(lia)) as Hq;
         unfold Z.div in Hq; destruct (Z.div_eucl a b) as [q r] ]
  end.
  - match goal with
    | |- 0 <= match ?s with _ => _ end => destruct s
    end; try lia. apply Z.shiftl_nonneg. lia.
  - injection E as <- _ _. exact Hq.
Qed.

(** ** The errors and the weight are never negative *)

(** X8. Whatever the stored covariance holds, no error that [getErrors]
    returns is negative or a NaN: each is a zero, a positive number or
    positive infinity. *)
Theorem getErrors_never_negative (this : FunctionMinimum) (errors : Parameters) :
  getErrors this = Normal errors ->
  Forall (fun x => Double.leb Double.zero x = true) errors.
Proof.
  unfold getErrors. destruct (negb (haveCovariance this)); [discriminate|].
  destruct (Int.of_size (length (_where this))) as [nPar | |]; cbn [bind];
    try discriminate.
  apply for_loop_invariant.
  - apply Forall_replicate. reflexivity.
  - intros i t t' Hb Ht.
    destruct (diag_index i) as [k | |]; cbn [bind] in Hb; try discriminate.
    destruct (deref (_covar this)) as [c | |]; cbn [bind] in Hb; try discriminate.
    destruct (vec_get c k) as [sigsq | |]; cbn [bind] in Hb; try discriminate.
    unfold vec_set in Hb. destruct (decide (i < length t)%nat); [|discriminate].
    injection Hb as <-. apply Forall_insert; [exact Ht|].
    apply (error_of_nonneg sigsq).
Qed.

Lemma getErrors_never_negative_witness :
  getErrors (mkFunctionMinimum (d 0) [d 0; d 0] (Some [d 4; d 1; d (-9)]) None)
  = Normal [d 2; d 0] /\
  Forall (fun x => Double.leb Double.zero x = true) [d 2; d 0].
Proof.
  assert (H : getErrors (mkFunctionMinimum (d 0) [d 0; d 0]
                           (Some [d 4; d 1; d (-9)]) None)
              = Normal [d 2; d 0]) by reflexivity.
  split; [exact H|].
  exact (getErrors_never_negative _ [d 2; d 0] H).
Defined.

(** X9. When the generator never hands out a NaN, the weight that
    [setRandomParameters] returns is never negative and never a NaN. *)
Theorem weight_never_negative (Random : Type)
    (getNormal : Random -> double * Random) (this : FunctionMinimum)
    (dst dst' : Parameters) (rng rng' : Random) (weight : double) :
  (forall r, is_nan (fst (getNormal r)) = false) ->
  setRandomParameters Random getNormal dst this rng = Normal (weight, dst', rng') ->
  Double.leb Double.zero weight = true.
Proof.
  intros Hnan. unfold setRandomParameters.
  destruct (negb (haveCovariance this)); [discriminate|].
  destruct (Int.of_size (length (_where this))) as [nPar | |]; cbn [bind];
    try discriminate.
  match goal with
  | |- context [for_loop ?n 0 (draw_step Random getNormal this) ?s0] =>
      destruct (for_loop n 0 (draw_step Random getNormal this) s0)
        as [s | |] eqn:Hloop; cbn [bind]; try discriminate
  end.
  assert (Hs : sign_plus (d_nlWeight Random s) = true).
  { revert Hloop. apply (for_loop_invariant
      (fun s => sign_plus (d_nlWeight Random s) = true)); [reflexivity|].
    intros i t t' Hb Ht. unfold draw_step in Hb.
    destruct (vec_get (_where this) i); cbn [bind] in Hb; try discriminate.
    destruct (vec_set (d_params Random t) i a); cbn [bind] in Hb; try discriminate.
    pose proof (Hnan (d_random Random t)) as Hr.
    destruct (getNormal (d_random Random t)) as [r rng1]. cbn [fst] in Hr.
    destruct (vec_set (d_gauss Random t) i r); cbn [bind] in Hb; try discriminate.
    injection Hb as <-. cbn [d_nlWeight].
    apply add_plus; [exact Ht | apply square_plus; exact Hr]. }
  destruct (deref (_cholesky this)) as [cholesky | |]; cbn [bind]; try discriminate.
  match goal with
  | |- context [bind ?e _] => destruct e as [pn | |]; cbn [bind]; try discriminate
  end.
  intros [= <- _ _]. apply sign_plus_nonneg, halve_plus, Hs.
Qed.

Lemma weight_never_negative_witness :
  (forall r : unit, is_nan (fst ((fun _ : unit => (d 1, tt)) r)) = false) /\
  setRandomParameters unit (fun _ => (d 1, tt)) [d 0; d 0] at_10_20 tt
  = Normal (d 1, [d 12; d 23], tt) /\
  Double.leb Double.zero (d 1) = true.
Proof.
  assert (H1 : forall r : unit, is_nan (fst ((fun _ : unit => (d 1, tt)) r)) = false)
    by reflexivity.
  assert (H2 : setRandomParameters unit (fun _ => (d 1, tt)) [d 0; d 0] at_10_20 tt
               = Normal (d 1, [d 12; d 23], tt)) by reflexivity.
  split; [exact H1|]. split; [exact H2|].
  exact (weight_never_negative unit (fun _ => (d 1, tt)) at_10_20 [d 0; d 0]
           [d 12; d 23] tt tt (d 1) H1 H2).
Defined.

(** ** Vectors of another length *)

(** X10. [updateParameters] takes a vector of any length and keeps the
    covariance stored for the old one.  With a covariance of the packed
    length for [n] parameters stored, [getErrors] after an update to [m]
    parameters returns the first [m] errors when [m <= n], so the errors
    as they were when [m = n], and reads past the end of the covariance
    when [m > n]. *)
Theorem getErrors_after_updateParameters
    (this : FunctionMinimum) (c : list double) (params : Parameters)
    (fval : double) :
  _covar this = Some c ->
  length c = tri (length (_where this)) ->
  Z.of_nat (length params) <= max_diag_order ->
  getErrors (updateParameters params fval this)
  = if decide (length params <= length (_where this))%nat
    then Normal (map (fun i => error_of (vec_at c (diag i)))
                   (seq 0 (length params)))
    else Undefined.
Proof.
  intros Hc Hlen Hm. set (n := length (_where this)) in *.
  set (m := length params) in *.
  destruct (decide (m <= n)%nat) as [Hle | Hgt].
  - apply (getErrors_spec (updateParameters params fval this) c Hc Hm).
    cbn [updateParameters _where]. rewrite Hlen. apply tri_mono. exact Hle.
  - unfold getErrors, haveCovariance. cbn [updateParameters _covar _where].
    rewrite Hc. cbn [negb].
    rewrite of_size_in_range by (unfold max_diag_order, Int.max in *; lia).
    cbn [bind]. rewrite Nat2Z.id. fold m.
    apply (for_loop_undefined (fun _ errors => length errors = m)) with (k := n).
    + lia.
    + apply length_replicate.
    + intros i errors Hi Hl.
      exists (<[i := error_of (vec_at c (diag i))]> errors). split.
      * rewrite diag_index_normal by (unfold max_diag_order in *; lia).
        cbn [bind deref].
        rewrite vec_get_at by (pose proof (diag_lt_tri i n ltac:(lia)); lia).
        cbn [bind]. apply vec_set_lt. lia.
      * rewrite length_insert. exact Hl.
    + intros errors Hl.
      rewrite diag_index_normal by (unfold max_diag_order in *; lia).
      cbn [bind deref]. unfold vec_get.
      rewrite (proj2 (lookup_ge_None c (diag n)))
        by (rewrite diag_tri; lia).
      reflexivity.
Qed.

Lemma getErrors_after_updateParameters_witness :
  _covar at_10_20 = Some [d 4; d 0; d 9] /\
  length [d 4; d 0; d 9] = tri (length (_where at_10_20)) /\
  Z.of_nat (length [d 1]) <= max_diag_order /\
  Z.of_nat (length [d 1; d 2; d 3]) <= max_diag_order /\
  getErrors (updateParameters [d 1] (d 0) at_10_20) = Normal [d 2] /\
  getErrors (updateParameters [d 1; d 2; d 3] (d 0) at_10_20) = Undefined.
Proof.
  assert (H1 : _covar at_10_20 = Some [d 4; d 0; d 9]) by reflexivity.
  assert (H2 : length [d 4; d 0; d 9] = tri (length (_where at_10_20)))
    by reflexivity.
  assert (H3 : Z.of_nat (length [d 1]) <= max_diag_order)
    by (vm_compute; congruence).
  assert (H4 : Z.of_nat (length [d 1; d 2; d 3]) <= max_diag_order)
    by (vm_compute; congruence).
  split; [exact H1|]. split; [exact H2|]. split; [exact H3|]. split; [exact H4|].
  split.
  - exact (getErrors_after_updateParameters at_10_20 [d 4; d 0; d 9] [d 1] (d 0)
             H1 H2 H3).
  - exact (getErrors_after_updateParameters at_10_20 [d 4; d 0; d 9]
             [d 1; d 2; d 3] (d 0) H1 H2 H4).
Defined.

(** X11. [setRandomParameters] writes the first [n] elements of the
    destination without resizing it: with a destination shorter than the
    number of parameters its behaviour is undefined. *)
Theorem setRandomParameters_short_destination (Random : Type)
    (getNormal : Random -> double * Random)
    (this : FunctionMinimum) (dst : Parameters) (rng : Random) :
  haveCovariance this = true ->
  Z.of_nat (length (_where this)) <= Int.max ->
  (length dst < length (_where this))%nat ->
  setRandomParameters Random getNormal dst this rng = Undefined.
Proof.
  intros Hc Hn Hlt. unfold setRandomParameters. rewrite Hc. cbn [negb].
  rewrite of_size_in_range by exact Hn. cbn [bind]. rewrite Nat2Z.id.
  set (n := length (_where this)) in *.
  rewrite (for_loop_undefined
             (fun _ s => length (d_params Random s) = length dst /\
                         length (d_gauss Random s) = n)
             (draw_step Random getNormal this) n 0 (length dst)).
  - reflexivity.
  - lia.
  - cbn [d_params d_gauss]. split; [reflexivity | apply length_replicate].
  - intros i s Hi (Hp & Hg). unfold draw_step.
    rewrite vec_get_at by (fold n; lia). cbn [bind].
    rewrite vec_set_lt by lia. cbn [bind].
    destruct (getNormal (d_random Random s)) as [r rng'].
    rewrite vec_set_lt by lia. cbn [bind].
    eexists. split; [reflexivity|]. cbn [d_params d_gauss].
    rewrite !length_insert. auto.
  - intros s (Hp & Hg). unfold draw_step.
    rewrite vec_get_at by (fold n; lia). cbn [bind].
    unfold vec_set. rewrite decide_False by lia. reflexivity.
Qed.

Lemma setRandomParameters_short_destination_witness :
  haveCovariance at_10_20 = true /\
  Z.of_nat (length (_where at_10_20)) <= Int.max /\
  (length [d 0] < length (_where at_10_20))%nat /\
  setRandomParameters (list double) Replay.getNormal [d 0] at_10_20 [d 1; d 1]
  = Undefined.
Proof.
  assert (H1 : haveCovariance at_10_20 = true) by reflexivity.
  assert (H2 : Z.of_nat (length (_where at_10_20)) <= Int.max)
    by (vm_compute; congruence).
  assert (H3 : (length [d 0] < length (_where at_10_20))%nat) by (cbn; lia).
  split; [exact H1|]. split; [exact H2|]. split; [exact H3|].
  exact (setRandomParameters_short_destination (list double) Replay.getNormal
           at_10_20 [d 0] [d 1; d 1] H1 H2 H3).
Defined.

(** ** Printing *)

Lemma append_assoc (a b c : string) : ((a ++ b) ++ c = a ++ (b ++ c))%string.
Proof. induction a as [|ch a IH]; cbn; [reflexivity | rewrite IH; reflexivity]. Qed.

Lemma append_nil_r (a : string) : (a ++ "" = a)%string.
Proof. induction a as [|ch a IH]; cbn; [reflexivity | rewrite IH; reflexivity]. Qed.

Section PrintingFacts.
Variable Format : Type.
Variable feed : Format -> double -> result (string * Format).
Variable show : double -> string.
Variable f : Format.
Hypothesis feed_show : forall x, feed f x = Normal (show x, f).

Lemma put_number_show (x : double) (o : string) :
  put_number Format feed x (o, f) = Normal ((o ++ show x)%string, f).
Proof. unfold put_number. cbn [fst snd]. rewrite feed_show. reflexivity. Qed.

(** A loop each step of which appends a piece of text appends the pieces
    in order. *)
Lemma text_loop (body : nat -> string * Format -> result (string * Format))
    (piece : nat -> string) (n i0 : nat) (o : string) :
  (forall i o, (i0 <= i < i0 + n)%nat ->
               body i (o, f) = Normal ((o ++ piece i)%string, f)) ->
  for_loop n i0 body (o, f)
  = Normal ((o ++ text (map piece (seq i0 n)))%string, f).
Proof.
  revert i0 o. induction n as [|n IH]; intros i0 o Hb; cbn [for_loop seq map text foldr].
  - rewrite append_nil_r. reflexivity.
  - rewrite Hb by lia. cbn [bind]. rewrite IH.
    + fold (text (map piece (seq (S i0) n))). rewrite append_assoc. reflexivity.
    + intros i o' Hi. apply Hb. lia.
Qed.
End PrintingFacts.

Lemma map_seq_vec_at {A : Type} (h : double -> A) (l : list double) :
  map (fun i => h (vec_at l i)) (seq 0 (length l)) = map h l.
Proof.
  induction l as [|x l IH]; [reflexivity|].
  cbn [length seq map]. f_equal. rewrite <- IH, <- seq_shift, map_map. reflexivity.
Qed.

Lemma packed_int_normal (i j n : nat) :
  Z.of_nat n <= max_diag_order -> (i <= j < n)%nat ->
  packed_int i j = Normal (packed_index i j).
Proof.
  unfold max_diag_order. intros Hn Hij. unfold packed_int, Int.add, Int.mul.
  assert (Hp : 0 <= Z.of_nat j * (Z.of_nat j + 1) <= 46340 * 46341)
    by (split; [lia | apply Z.mul_le_mono_nonneg; lia]).
  rewrite check_in_range by (unfold Int.min, Int.max; lia). cbn [bind].
  rewrite check_in_range by (unfold Int.min, Int.max; lia). cbn [bind].
  rewrite half_nonneg by lia. rewrite <- Z_tri.
  pose proof (Z_tri_double j) as Ht.
  rewrite check_in_range by (unfold Int.min, Int.max; lia). cbn [bind].
  unfold packed_index. f_equal. lia.
Qed.

Lemma packed_index_lt (i j n : nat) :
  (i <= j < n)%nat -> (packed_index i j < tri n)%nat.
Proof.
  intros Hij. unfold packed_index.
  pose proof (tri_mono (S j) n ltac:(lia)) as H. rewrite tri_S in H. lia.
Qed.

Lemma print_index_normal (i j n : nat) :
  Z.of_nat n <= max_diag_order -> (i < n)%nat -> (j < n)%nat ->
  print_index i j = Normal (packed_index (Nat.min i j) (Nat.max i j)).
Proof.
  intros Hn Hi Hj. unfold print_index.
  destruct (Nat.leb_spec i j) as [Hij | Hij].
  - rewrite Nat.min_l, Nat.max_r by lia. apply (packed_int_normal i j n Hn). lia.
  - rewrite Nat.min_r, Nat.max_l by lia. apply (packed_int_normal j i n Hn). lia.
Qed.

(** X12. The index that [printToStream] computes for row [i] and column
    [j] of a matrix of order [n] is that of the packed element of the
    smaller and the larger of the two: it is the same for [(i,j)] and
    [(j,i)], it lies within the packed length [n*(n+1)/2], and on the
    diagonal it is the index [i*(i+3)/2] that [updateCovariance] and
    [getErrors] use. *)
Theorem print_index_symmetric (i j n : nat) :
  Z.of_nat n <= max_diag_order -> (i < n)%nat -> (j < n)%nat ->
  print_index i j = Normal (packed_index (Nat.min i j) (Nat.max i j)) /\
  print_index i j = print_index j i /\
  (packed_index (Nat.min i j) (Nat.max i j) < tri n)%nat /\
  print_index i i = diag_index i.
Proof.
  intros Hn Hi Hj.
  split; [apply (print_index_normal i j n); assumption|].
  split.
  { rewrite (print_index_normal i j n), (print_index_normal j i n) by assumption.
    rewrite Nat.min_comm, Nat.max_comm. reflexivity. }
  split; [apply packed_index_lt; lia|].
  rewrite (print_index_normal i i n) by assumption.
  rewrite Nat.min_id, Nat.max_id.
  rewrite diag_index_normal by (unfold max_diag_order in *; lia).
  unfold packed_index. rewrite diag_tri. reflexivity.
Qed.

Lemma print_index_symmetric_witness :
  Z.of_nat 3 <= max_diag_order /\ (0 < 3)%nat /\ (2 < 3)%nat /\
  print_index 0 2 = Normal (packed_index (Nat.min 0 2) (Nat.max 0 2)) /\
  print_index 0 2 = print_index 2 0 /\
  (packed_index (Nat.min 0 2) (Nat.max 0 2) < tri 3)%nat /\
  print_index 0 0 = diag_index 0.
Proof.
  assert (H1 : Z.of_nat 3 <= max_diag_order) by (vm_compute; congruence).
  assert (H2 : (0 < 3)%nat) by lia.
  assert (H3 : (2 < 3)%nat) by lia.
  split; [exact H1|]. split; [exact H2|]. split; [exact H3|].
  exact (print_index_symmetric 0 2 3 H1 H2 H3).
Defined.

(** X13. [printToStream] reads the first parameter before it looks at
    their number: on a minimum with no parameters its behaviour is
    undefined, whatever the format. *)
Theorem printToStream_no_parameters (Format : Type)
    (format_of : string -> result Format)
    (feed : Format -> double -> result (string * Format))
    (os formatSpec : string) (this : FunctionMinimum) (f : Format) :
  _where this = [] ->
  format_of formatSpec = Normal f ->
  printToStream Format format_of feed os formatSpec this = Undefined.
Proof.
  intros Hw Hf. unfold printToStream. rewrite Hf, Hw. reflexivity.
Qed.

Lemma printToStream_no_parameters_witness :
  _where (FunctionMinimum_ (d 0) []) = [] /\
  Marks.format_of "%g" = Normal tt /\
  printToStream unit Marks.format_of Marks.feed "" "%g" (FunctionMinimum_ (d 0) [])
  = Undefined.
Proof.
  split; [reflexivity|]. split; [reflexivity|].
  exact (printToStream_no_parameters unit Marks.format_of Marks.feed "" "%g"
           (FunctionMinimum_ (d 0) []) tt eq_refl eq_refl).
Defined.

(** X14. With a formatter that writes [show x] for every number [x] and
    is ready again afterwards, [printToStream] on a minimum with at least
    one parameter appends the line [F(w0,...) = min]; when a covariance
    of at least the packed length is present it goes on with the line of
    the errors and the [n] rows of the full matrix, the element of row
    [i] and column [j] being the packed element of the smaller and the
    larger index, so that the matrix printed is symmetric; when none is
    present it writes nothing more and does not throw. *)
Theorem printToStream_text (Format : Type)
    (format_of : string -> result Format)
    (feed : Format -> double -> result (string * Format))
    (show : double -> string) (f : Format)
    (os formatSpec : string) (this : FunctionMinimum)
    (w0 : double) (ws : list double) :
  format_of formatSpec = Normal f ->
  (forall x, feed f x = Normal (show x, f)) ->
  _where this = w0 :: ws ->
  Z.of_nat (length (_where this)) <= max_diag_order ->
  match _covar this with
  | Some c => (tri (length (_where this)) <= length c)%nat
  | None => True
  end ->
  printToStream Format format_of feed os formatSpec this
  = Normal (os ++ printed_minimum show (_minValue this) w0 ws
            ++ match _covar this with
               | Some c => printed_covariance show (length (_where this)) c
               | None => ""
               end)%string.
Proof.
  intros Hf Hfeed Hw Hn Hc. unfold printToStream.
  rewrite Hf. cbn [bind].
  replace (vec_get (_where this) 0) with (Normal w0) by (rewrite Hw; reflexivity).
  cbn [bind].
  unfold put at 1. cbn [fst snd]. rewrite (put_number_show Format feed show f Hfeed).
  cbn [bind].
  rewrite of_size_in_range by (unfold max_diag_order, Int.max in *; lia).
  cbn [bind]. rewrite Nat2Z.id. set (n := length (_where this)) in *.
  assert (Hws : (n - 1)%nat = length ws) by (subst n; rewrite Hw; cbn; lia).
  rewrite (text_loop Format f _ (fun i => ("," ++ show (vec_at (_where this) i))%string)).
  2:{ intros i o Hi. rewrite vec_get_at by (fold n; lia). cbn [bind].
      unfold put. cbn [fst snd].
      rewrite (put_number_show Format feed show f Hfeed). rewrite append_assoc.
      reflexivity. }
  cbn [bind]. unfold put at 1. cbn [fst snd].
  rewrite (put_number_show Format feed show f Hfeed). cbn [bind].
  assert (Hhead :
    ((((((os ++ "F(") ++ show w0)
        ++ text (map (fun i => "," ++ show (vec_at (_where this) i)) (seq 1 (n - 1))))
       ++ ") = ") ++ show (_minValue this)) ++ endl
    = os ++ printed_minimum show (_minValue this) w0 ws)%string).
  { unfold printed_minimum. rewrite Hws, Hw.
    rewrite <- (map_seq_vec_at (fun w => ("," ++ show w)%string) ws).
    rewrite <- seq_shift, map_map. cbn [vec_at lookup list_lookup].
    rewrite !append_assoc. reflexivity. }
  unfold haveCovariance. destruct (_covar this) as [c|] eqn:Ec.
  - rewrite (getErrors_spec this c Ec Hn Hc). cbn [bind]. fold n.
    unfold put at 1 2. cbn [fst snd].
    rewrite (text_loop Format f _
               (fun i => (" " ++ show (error_of (vec_at c (diag i))))%string)).
    2:{ intros i o Hi.
        rewrite (vec_get_lookup _ i (error_of (vec_at c (diag i)))).
        - cbn [bind]. unfold put. cbn [fst snd].
          rewrite (put_number_show Format feed show f Hfeed). rewrite append_assoc.
          reflexivity.
        - rewrite list_lookup_fmap, lookup_seq_lt by lia. reflexivity. }
    cbn [bind]. unfold put at 1 2 3. cbn [fst snd].
    rewrite (text_loop Format f _
               (fun i => (text (map (fun j =>
                    " " ++ show (vec_at c (packed_index (Nat.min i j) (Nat.max i j))))
                    (seq 0 n)) ++ endl)%string)).
    2:{ intros i o Hi.
        rewrite (text_loop Format f _
                   (fun j => (" " ++ show (vec_at c
                       (packed_index (Nat.min i j) (Nat.max i j))))%string)).
        - cbn [bind]. unfold put. cbn [fst snd]. rewrite append_assoc. reflexivity.
        - intros j o' Hj.
          rewrite (print_index_normal i j n Hn) by lia. cbn [bind deref].
          rewrite vec_get_at
            by (pose proof (packed_index_lt (Nat.min i j) (Nat.max i j) n); lia).
          cbn [bind]. unfold put. cbn [fst snd].
          rewrite (put_number_show Format feed show f Hfeed). rewrite append_assoc.
          reflexivity. }
    cbn [bind fst]. f_equal.
    rewrite <- (append_assoc os). rewrite <- Hhead. unfold printed_covariance.
    unfold put. cbn [fst snd]. rewrite !append_assoc. reflexivity.
  - cbn [fst]. f_equal. rewrite append_nil_r, <- Hhead.
    unfold put. cbn [fst]. rewrite !append_assoc. reflexivity.
Qed.

Lemma printToStream_text_witness :
  Marks.format_of "%g" = Normal tt /\
  (forall x, Marks.feed tt x = Normal (Marks.show x, tt)) /\
  _where at_10_20 = [d 10; d 20] /\
  Z.of_nat (length (_where at_10_20)) <= max_diag_order /\
  (tri (length (_where at_10_20)) <= length [d 4; d 0; d 9])%nat /\
  printToStream unit Marks.format_of Marks.feed "" "%g" at_10_20
  = Normal ("" ++ printed_minimum Marks.show (_minValue at_10_20) (d 10) [d 20]
            ++ printed_covariance Marks.show (length (_where at_10_20))
                 [d 4; d 0; d 9])%string.
Proof.
  assert (H1 : Marks.format_of "%g" = Normal tt) by reflexivity.
  assert (H2 : forall x, Marks.feed tt x = Normal (Marks.show x, tt))
    by reflexivity.
  assert (H3 : _where at_10_20 = [d 10; d 20]) by reflexivity.
  assert (H4 : Z.of_nat (length (_where at_10_20)) <= max_diag_order)
    by (vm_compute; congruence).
  assert (H5 : (tri (length (_where at_10_20)) <= length [d 4; d 0; d 9])%nat)
    by (cbn; lia).
  split; [exact H1|]. split; [exact H2|]. split; [exact H3|].
  split; [exact H4|]. split; [exact H5|].
  exact (printToStream_text unit Marks.format_of Marks.feed Marks.show tt "" "%g"
           at_10_20 (d 10) [d 20] H1 H2 H3 H4 H5).
Defined.

(** The text of the example, as written. *)
Example printed_at_10_20 :
  printToStream unit Marks.format_of Marks.feed "" "%g" at_10_20
  = Normal ("F(x,x) = 0" ++ endl ++ "ERRORS: x x" ++ endl
            ++ "COVARIANCE:" ++ endl ++ " x 0" ++ endl ++ " 0 x" ++ endl)%string.
Proof. reflexivity. Qed.

(** X15. [printToStream] throws nothing of its own: when neither the
    construction of the formatter nor the formatting of a number throws,
    it does not throw, with or without a covariance. *)
Theorem printToStream_throws_nothing (Format : Type)
    (format_of : string -> result Format)
    (feed : Format -> double -> result (string * Format))
    (os formatSpec : string) (this : FunctionMinimum) (what : string) :
  (forall spec w, format_of spec <> Throw w) ->
  (forall f x w, feed f x <> Throw w) ->
  printToStream Format format_of feed os formatSpec this <> Throw what.
Proof.
  intros Hformat Hfeed. revert what.
  assert (Hput : forall x s w, put_number Format feed x s <> Throw w).
  { intros x s w. unfold put_number.
    apply bind_no_throw; [intros; apply Hfeed | discriminate]. }
  assert (Hidx : forall i j w, print_index i j <> Throw w).
  { intros i j w. unfold print_index, packed_int, Int.add, Int.mul.
    destruct (i <=? j)%nat; no_throw. }
  unfold printToStream.
  apply bind_no_throw; [intros; apply Hformat | intros formatter what].
  apply bind_no_throw; [intros; apply vec_get_no_throw | intros w0 what1].
  apply bind_no_throw; [intros; apply Hput | intros s1 what2].
  apply bind_no_throw; [intros; apply check_no_throw | intros nPar what3].
  apply bind_no_throw.
  { intros w. apply for_loop_no_throw. intros i s w'.
    apply bind_no_throw; [intros; apply vec_get_no_throw | intros; apply Hput]. }
  intros s2 what4.
  apply bind_no_throw; [intros; apply Hput | intros s3 what5].
  destruct (haveCovariance this) eqn:Hc; [|discriminate].
  apply bind_no_throw.
  { intros w Hw. apply getErrors_throws in Hw. congruence. }
  intros errors what6.
  apply bind_no_throw.
  { intros w. apply for_loop_no_throw. intros i s w'.
    apply bind_no_throw; [intros; apply vec_get_no_throw | intros; apply Hput]. }
  intros s4 what7.
  apply bind_no_throw; [|discriminate].
  intros w. apply for_loop_no_throw. intros i s w'.
  apply bind_no_throw; [|discriminate].
  intros w''. apply for_loop_no_throw. intros j s' w3.
  apply bind_no_throw; [intros; apply Hidx | intros index w4].
  apply bind_no_throw; [intros; apply deref_no_throw | intros c w5].
  apply bind_no_throw; [intros; apply vec_get_no_throw | intros; apply Hput].
Qed.

Lemma printToStream_throws_nothing_witness :
  (forall spec w, Marks.format_of spec <> Throw w) /\
  (forall f x w, Marks.feed f x <> Throw w) /\
  printToStream unit Marks.format_of Marks.feed "" "%g" origin1
  <> Throw "FunctionMinimum::getErrors: no covariance matrix available.".
Proof.
  assert (H1 : forall spec w, Marks.format_of spec <> Throw w) by discriminate.
  assert (H2 : forall f x w, Marks.feed f x <> Throw w) by discriminate.
  split; [exact H1|]. split; [exact H2|].
  exact (printToStream_throws_nothing unit Marks.format_of Marks.feed "" "%g"
           origin1 "FunctionMinimum::getErrors: no covariance matrix available."
           H1 H2).
Defined.

(** ** The order of [double] *)

Lemma leb_refl (x : double) : is_nan x = false -> Double.leb x x = true.
Proof.
  destruct x as [s|s| |s m e]; try destruct s; cbn; try congruence; intros _.
  - unfold Double.leb, SFleb, SFcompare.
    rewrite Z.compare_refl. change (Pos.compare_cont Eq m m) with (Pos.compare m m).
    rewrite Pos.compare_refl. reflexivity.
  - unfold Double.leb, SFleb, SFcompare.
    rewrite Z.compare_refl. change (Pos.compare_cont Eq m m) with (Pos.compare m m).
    rewrite Pos.compare_refl. reflexivity.
Qed.

(** Of two numbers the second of which is not greater than the first, the
    second is less than or equal to it. *)
Lemma not_gt_le (a b : double) :
  is_nan a = false -> is_nan b = false ->
  Double.ltb b a = false -> Double.leb a b = true.
Proof.
  unfold Double.ltb, Double.leb, SFltb, SFleb.
  destruct a as [sa|sa| |sa ma ea], b as [sb|sb| |sb mb eb];
    try destruct sa; try destruct sb; cbn; try congruence; intros _ _;
    change (Pos.compare_cont Eq mb ma) with (Pos.compare mb ma);
    change (Pos.compare_cont Eq ma mb) with (Pos.compare ma mb);
    rewrite (Z.compare_antisym ea eb), (Pos.compare_antisym ma mb);
    destruct (ea ?= eb); cbn; try congruence;
    destruct (ma ?= mb)%positive; cbn; congruence.
Qed.

Lemma leb_trans (a b c : double) :
  Double.leb a b = true -> Double.leb b c = true -> Double.leb a c = true.
Proof.
  unfold Double.leb, SFleb.
  destruct a as [sa|sa| |sa ma ea], b as [sb|sb| |sb mb eb],
           c as [sc|sc| |sc mc ec];
    try destruct sa; try destruct sb; try destruct sc; cbn;
    try congruence;
    change (Pos.compare_cont Eq ma mb) with (Pos.compare ma mb);
    change (Pos.compare_cont Eq mb mc) with (Pos.compare mb mc);
    change (Pos.compare_cont Eq ma mc) with (Pos.compare ma mc);
    destruct (Z.compare_spec ea eb), (Z.compare_spec eb ec),
             (Z.compare_spec ea ec); try lia; cbn; try congruence;
    destruct (Pos.compare_spec ma mb), (Pos.compare_spec mb mc),
             (Pos.compare_spec ma mc); try lia; cbn; congruence.
Qed.

(** ** Sample points *)

(** The loop of the constructor from the point [a] on: it throws when a
    point is greater than the one after it. *)
Lemma order_loop (pre rest : list double) (a : double) :
  for_loop (length rest) (length pre + 1)
    (NonUniformSampling.order_check (pre ++ a :: rest)) tt
  = if descends (a :: rest)
    then Throw "NonUniformSampling: sample points are not in increasing order."
    else Normal tt.
Proof.
  revert pre a. induction rest as [|b rest IH]; intros pre a; [reflexivity|].
  cbn [length for_loop]. unfold NonUniformSampling.order_check at 1.
  replace (length pre + 1 - 1)%nat with (length pre) by lia.
  rewrite (vec_get_lookup _ _ a) by (apply list_lookup_middle; reflexivity).
  cbn [bind].
  rewrite (vec_get_lookup _ _ b).
  2:{ replace (pre ++ a :: b :: rest) with ((pre ++ [a]) ++ b :: rest)
        by (rewrite <- app_assoc; reflexivity).
      apply list_lookup_middle. rewrite length_app. cbn. lia. }
  cbn [bind]. change (descends (a :: b :: rest))
    with (Double.ltb b a || descends (b :: rest)).
  destruct (Double.ltb b a); cbn [orb bind]; [reflexivity|].
  specialize (IH (pre ++ [a]) b).
  rewrite <- app_assoc in IH. cbn [app] in IH.
  rewrite length_app in IH. cbn [length] in IH.
  replace (S (length pre + 1)) with (length pre + 1 + 1)%nat by lia.
  exact IH.
Qed.

Lemma sample_points_outcome (v : list double) :
  Z.of_nat (length v) <= Int.max ->
  NonUniformSampling.NonUniformSampling_ v
  = match v with
    | [] => Throw "NonUniformSampling: need at least 1 sample point."
    | _ :: _ =>
        if descends v
        then Throw "NonUniformSampling: sample points are not in increasing order."
        else Normal (mkNonUniformSampling v)
    end.
Proof.
  intros Hn. unfold NonUniformSampling.NonUniformSampling_. cbn [_samplePoints].
  rewrite of_size_in_range by exact Hn. cbn [bind].
  destruct v as [|a rest]; [reflexivity|].
  destruct (Z.ltb_spec (Z.of_nat (length (a :: rest))) 1) as [H | H];
    [cbn [length] in H; lia|].
  rewrite Nat2Z.id. cbn [length].
  replace (S (length rest) - 1)%nat with (length rest) by lia.
  pose proof (order_loop [] rest a) as Hl. cbn [app length Nat.add] in Hl.
  rewrite Hl. destruct (descends (a :: rest)); reflexivity.
Qed.

(** What a constructed object tells of the points it was built from. *)
Lemma sample_points_constructed (v : list double) (this : NonUniformSampling) :
  NonUniformSampling.NonUniformSampling_ v = Normal this ->
  this = mkNonUniformSampling v /\ v <> [] /\ descends v = false /\
  Z.of_nat (length v) <= Int.max.
Proof.
  intros H.
  assert (Hn : Z.of_nat (length v) <= Int.max).
  { unfold NonUniformSampling.NonUniformSampling_, Int.of_size, Int.check,
      Int.in_range in H. cbn [_samplePoints] in H.
    destruct (Z.leb_spec (Z.of_nat (length v)) Int.max) as [|Hgt]; [assumption|].
    rewrite andb_false_r in H. discriminate. }
  rewrite (sample_points_outcome v Hn) in H.
  destruct v as [|a rest]; [discriminate|].
  destruct (descends (a :: rest)); [discriminate|].
  injection H as <-. auto.
Qed.

(** X16. The constructor of [NonUniformSampling] throws on no points,
    throws when some point is greater than the one after it, and
    otherwise builds the object holding the points as given; equal
    neighbours are accepted.  A constructed object has at least one bin,
    and [getNBins] is the number of points. *)
Theorem NonUniformSampling_accepts (v : list double) :
  Z.of_nat (length v) <= Int.max ->
  NonUniformSampling.NonUniformSampling_ v
  = match v with
    | [] => Throw "NonUniformSampling: need at least 1 sample point."
    | _ :: _ =>
        if descends v
        then Throw "NonUniformSampling: sample points are not in increasing order."
        else Normal (mkNonUniformSampling v)
    end /\
  (forall this, NonUniformSampling.NonUniformSampling_ v = Normal this ->
     NonUniformSampling.getNBins this = Normal (Z.of_nat (length v)) /\
     1 <= Z.of_nat (length v)).
Proof.
  intros Hn. split; [exact (sample_points_outcome v Hn)|].
  intros this H. destruct (sample_points_constructed v this H) as (-> & Hne & _ & _).
  unfold NonUniformSampling.getNBins. cbn [_samplePoints].
  split; [apply of_size_in_range; exact Hn|].
  destruct v; [congruence | cbn [length]; lia].
Qed.

Lemma NonUniformSampling_accepts_witness :
  Z.of_nat (length [d 1; d 1; d 3]) <= Int.max /\
  NonUniformSampling.NonUniformSampling_ [d 1; d 1; d 3]
  = Normal (mkNonUniformSampling [d 1; d 1; d 3]) /\
  NonUniformSampling.NonUniformSampling_ [d 1; d 3; d 2]
  = Throw "NonUniformSampling: sample points are not in increasing order." /\
  NonUniformSampling.NonUniformSampling_ []
  = Throw "NonUniformSampling: need at least 1 sample point.".
Proof.
  assert (H : Z.of_nat (length [d 1; d 1; d 3]) <= Int.max)
    by (vm_compute; congruence).
  split; [exact H|].
  split; [exact (proj1 (NonUniformSampling_accepts [d 1; d 1; d 3] H))|].
  split; [exact (proj1 (NonUniformSampling_accepts [d 1; d 3; d 2] H))|].
  exact (proj1 (NonUniformSampling_accepts [] ltac:(vm_compute; congruence))).
Defined.

Lemma head_le_all (a : double) (rest : list double) :
  Forall (fun x => is_nan x = false) (a :: rest) ->
  descends (a :: rest) = false ->
  Forall (fun b => Double.leb a b = true) rest.
Proof.
  revert a. induction rest as [|b rest IH]; intros a Hnan Hd; [constructor|].
  change (descends (a :: b :: rest))
    with (Double.ltb b a || descends (b :: rest)) in Hd.
  apply orb_false_elim in Hd as [Hba Hd].
  inversion Hnan as [|? ? Ha Hrest]; subst.
  inversion Hrest as [|? ? Hb _]; subst.
  pose proof (not_gt_le a b Ha Hb Hba) as Hab.
  constructor; [exact Hab|].
  eapply Forall_impl; [exact (IH b Hrest Hd)|].
  intros c Hbc. exact (leb_trans a b c Hab Hbc).
Qed.

Lemma ascending_pairs (v : list double) :
  Forall (fun x => is_nan x = false) v ->
  descends v = false ->
  forall i j a b, (i <= j)%nat -> v !! i = Some a -> v !! j = Some b ->
                  Double.leb a b = true.
Proof.
  induction v as [|x v IH]; intros Hnan Hd i j a b Hij Ha Hb; [discriminate|].
  assert (Hd' : descends v = false).
  { destruct v as [|y v]; [reflexivity|].
    change (descends (x :: y :: v))
      with (Double.ltb y x || descends (y :: v)) in Hd.
    apply orb_false_elim in Hd as [_ Hd]. exact Hd. }
  inversion Hnan as [|? ? Hx Hv]; subst.
  destruct i as [|i]; destruct j as [|j]; cbn in Ha, Hb; try lia.
  - injection Ha as Ea. injection Hb as Eb. subst a b. apply leb_refl. exact Hx.
  - injection Ha as Ea. subst a.
    pose proof (head_le_all x v Hnan Hd) as Hall.
    rewrite Forall_lookup in Hall. exact (Hall j b Hb).
  - apply (IH Hv Hd' i j a b); [lia | exact Ha | exact Hb].
Qed.

(** X17. The sample points of a constructed object none of which is a
    NaN are in order throughout, not only neighbour by neighbour: each is
    less than or equal to every one after it. *)
Theorem NonUniformSampling_sorted (v : list double) (this : NonUniformSampling) :
  NonUniformSampling.NonUniformSampling_ v = Normal this ->
  Forall (fun x => is_nan x = false) v ->
  forall i j a b, (i <= j)%nat ->
    _samplePoints this !! i = Some a -> _samplePoints this !! j = Some b ->
    Double.leb a b = true.
Proof.
  intros H Hnan. destruct (sample_points_constructed v this H) as (-> & _ & Hd & _).
  cbn [_samplePoints]. exact (ascending_pairs v Hnan Hd).
Qed.

Lemma NonUniformSampling_sorted_witness :
  NonUniformSampling.NonUniformSampling_ [d 1; d 1; d 3]
  = Normal (mkNonUniformSampling [d 1; d 1; d 3]) /\
  Forall (fun x => is_nan x = false) [d 1; d 1; d 3] /\
  (forall i j a b, (i <= j)%nat ->
     _samplePoints (mkNonUniformSampling [d 1; d 1; d 3]) !! i = Some a ->
     _samplePoints (mkNonUniformSampling [d 1; d 1; d 3]) !! j = Some b ->
     Double.leb a b = true).
Proof.
  assert (H1 : NonUniformSampling.NonUniformSampling_ [d 1; d 1; d 3]
               = Normal (mkNonUniformSampling [d 1; d 1; d 3])) by reflexivity.
  assert (H2 : Forall (fun x => is_nan x = false) [d 1; d 1; d 3])
    by (repeat constructor).
  split; [exact H1|]. split; [exact H2|].
  exact (NonUniformSampling_sorted [d 1; d 1; d 3]
           (mkNonUniformSampling [d 1; d 1; d 3]) H1 H2).
Defined.

(** X18. A NaN is never greater or less than its neighbour, so that the
    constructor accepts a NaN between any two points, in whatever order
    the two are. *)
Theorem NonUniformSampling_nan_between (a b : double) :
  NonUniformSampling.NonUniformSampling_ [a; S754_nan; b]
  = Normal (mkNonUniformSampling [a; S754_nan; b]).
Proof.
  rewrite sample_points_outcome by (cbn [length]; unfold Int.max; lia).
  change (descends [a; S754_nan; b])
    with (Double.ltb S754_nan a || (Double.ltb b S754_nan || false)).
  assert (H1 : Double.ltb S754_nan a = false) by (destruct a; reflexivity).
  assert (H2 : Double.ltb b S754_nan = false)
    by (destruct b as [[]|[]| |[]]; reflexivity).
  rewrite H1, H2. reflexivity.
Qed.
